(** * Vectorized mobjects: path buffers, subpaths, curve insertion, alignment

    A shallow embedding of [manim/mobject/types/vectorized_mobject.py].
    Coordinates are exact rationals ([Qc], canonical fractions with Leibniz
    equality) standing for the floats of the source; integer quantities
    (lengths, indices, split factors) are [nat] or [Z] as the source uses
    them.  Every mutating method is a computation in a small state-and-error
    monad over the mobject it mutates, so that a raised exception still
    exposes the buffer it left behind. *)

From Stdlib Require Import String.
From Stdlib Require Import List ZArith QArith Qcanon Qround Lia Bool Arith.
Import ListNotations.

Close Scope Qc_scope.
Close Scope Q_scope.
Open Scope nat_scope.

Set Implicit Arguments.

(** ** Scalars *)

Module Scalar.

Local Open Scope Qc_scope.

Definition of_Z (z : Z) : Qc := Q2Qc (inject_Z z).
Definition of_nat (n : nat) : Qc := of_Z (Z.of_nat n).
Definition frac (a b : Z) : Qc := of_Z a / of_Z b.

Definition leb (x y : Qc) : bool := Qle_bool x y.
Definition abs (x : Qc) : Qc := if leb 0 x then x else - x.
Definition eqb (x y : Qc) : bool := Qeq_bool x y.

(** Python's [int(x)] agrees with [floor] on the non-negative values it is
    applied to; [floor] is what the specification names. *)
Definition floor (x : Qc) : Z := Qfloor x.

End Scalar.

(** ** Points: three coordinates *)

Record Point : Type := mkPoint { px : Qc; py : Qc; pz : Qc }.

Module Vec.

Local Open Scope Qc_scope.

Definition ORIGIN : Point := mkPoint 0 0 0.

Definition add (p q : Point) : Point :=
  mkPoint (px p + px q) (py p + py q) (pz p + pz q).

Definition sub (p q : Point) : Point :=
  mkPoint (px p - px q) (py p - py q) (pz p - pz q).

Definition scale (k : Qc) (p : Point) : Point :=
  mkPoint (k * px p) (k * py p) (k * pz p).

Definition coords (p : Point) : list Qc := [px p; py p; pz p].

End Vec.

(** ** Exceptions and results *)

Inductive exn : Type :=
| Exception (msg : string)
| IndexError
| ValueError
| TypeError.

Inductive result (A : Type) : Type :=
| Ok (a : A)
| Raise (e : exn).

Arguments Ok {A} a.
Arguments Raise {A} e.

Definition result_bind {A B : Type} (r : result A) (k : A -> result B) : result B :=
  match r with
  | Ok a => k a
  | Raise e => Raise e
  end.

Fixpoint result_all {A : Type} (l : list (result A)) : result (list A) :=
  match l with
  | [] => Ok []
  | r :: rest =>
      result_bind r (fun a => result_bind (result_all rest) (fun t => Ok (a :: t)))
  end.

(** ** The sequence primitives of Python and numpy that the module relies on *)

Module Np.

Local Open Scope Qc_scope.

(** [range(start, stop, step)] for a positive step. *)
Definition range (start stop step : nat) : list nat :=
  map (fun k => (start + k * step)%nat)
      (seq 0 ((stop - start + (step - 1)) / step)%nat).

(** [np.arange(n)]. *)
Definition arange (n : nat) : list nat := seq 0 n.

(** [l[i1:i2]] for indices [0 <= i1], [0 <= i2]. *)
Definition slice {A : Type} (l : list A) (i1 i2 : nat) : list A :=
  firstn (i2 - i1) (skipn i1 l).

(** [l[i]] for a possibly negative index. *)
Definition index {A : Type} (l : list A) (i : Z) : result A :=
  let n := Z.of_nat (length l) in
  let j := if (i <? 0)%Z then (i + n)%Z else i in
  if ((0 <=? j) && (j <? n))%Z%bool
  then match nth_error l (Z.to_nat j) with
       | Some a => Ok a
       | None => Raise IndexError
       end
  else Raise IndexError.

(** The clamping of one bound of a slice with possibly negative bounds. *)
Definition clamp (n i : Z) : nat :=
  Z.to_nat (if (i <? 0)%Z then Z.max 0 (i + n) else Z.min i n).

(** [l[i1:i2]] for possibly negative bounds. *)
Definition zslice {A : Type} (l : list A) (i1 i2 : Z) : list A :=
  let n := Z.of_nat (length l) in
  slice l (clamp n i1) (clamp n i2).

(** [l[-1]]. *)
Definition last_item {A : Type} (l : list A) : result A := index l (-1).

(** [np.repeat(a, k, 0)]: every row [k] times, in order. *)
Definition np_repeat {A : Type} (l : list A) (k : nat) : list A :=
  flat_map (fun a => repeat a k) l.

(** [np.linspace(start, stop, num)]. *)
Definition linspace (start stop : Qc) (num : nat) : list Qc :=
  let step := (stop - start) / Scalar.of_nat (num - 1) in
  map (fun i => start + Scalar.of_nat i * step) (seq 0 num).

(** [zip(l, l[1:])]. *)
Definition adjacent {A : Type} (l : list A) : list (A * A) := combine l (tl l).

(** numpy's default relative tolerance, the [rtol] that
    [consider_points_equals_2d] spells out. *)
Definition rtol : Qc := Scalar.frac 1 100000.

(** [np.allclose(p0, p1, atol=atol)] on two points. *)
Definition allclose (p0 p1 : Point) (atol : Qc) : bool :=
  forallb (fun c => Scalar.leb (Scalar.abs (fst c - snd c)) (atol + rtol * Scalar.abs (snd c)))
          (combine (Vec.coords p0) (Vec.coords p1)).

End Np.

(** ** Collaborating helper modules *)

Module Bezier.

Local Open Scope Qc_scope.

(** Modelled from the spec: [utils/bezier.py] is not among the sources.
    [interpolate] is the linear interpolation
    [(1 - alpha) * source + alpha * target] of section 4.6. *)
Definition interpolate (start stop : Point) (alpha : Qc) : Point :=
  Vec.add (Vec.scale (1 - alpha) start) (Vec.scale alpha stop).

(** One round of de Casteljau interpolation between neighbours. *)
Fixpoint casteljau_row (t : Qc) (l : list Point) : list Point :=
  match l with
  | a :: (b :: _) as rest => interpolate a b t :: casteljau_row t rest
  | _ => []
  end.

(** The control points of the curve restricted to [[0, t]]: the first point
    of every successive round. *)
Fixpoint trim_upper (fuel : nat) (t : Qc) (l : list Point) : list Point :=
  match fuel, l with
  | S fuel', p :: _ => p :: trim_upper fuel' t (casteljau_row t l)
  | _, _ => []
  end.

(** The control points of the curve restricted to [[t, 1]]: the last point
    of every successive round, the final round first. *)
Fixpoint trim_lower (fuel : nat) (t : Qc) (l : list Point) : list Point :=
  match fuel, l with
  | S fuel', p :: _ => trim_lower fuel' t (casteljau_row t l) ++ [last l p]
  | _, _ => []
  end.

(** Modelled from the spec: [partial_bezier_points] is the [splitCurve] of
    section 4.3, "two passes of de Casteljau linear interpolation (trim the
    upper bound, then rescale and trim the lower bound on the result)". *)
Definition partial_bezier_points (points : list Point) (a b : Qc) : list Point :=
  let n := length points in
  trim_lower n (a / b) (trim_upper n b points).

(** Modelled from the spec: [integer_interpolate] is the
    [integerInterpolate] of section 4.5, [index = min(floor(x*n), n-1)] and
    [residue = x*n - index], stated there for [start = 0]. *)
Definition integer_interpolate (start stop : Z) (alpha : Qc) : Z * Qc :=
  let n := (stop - start)%Z in
  let x := alpha * Scalar.of_Z n in
  let index := Z.min (Scalar.floor x) (n - 1) in
  ((start + index)%Z, x - Scalar.of_Z index).

End Bezier.

Module Iterables.

(** Modelled from the spec: [utils/iterables.py] is not among the sources.
    Section 3: "Stretching a shorter array to a target length N maps index
    i to source index floor(i * srcLen / N)"; reading an index of an empty
    array raises. *)
Definition stretch_array_to_length {A : Type} (nparray : list A) (len : nat)
  : result (list A) :=
  let curr_len := length nparray in
  result_all (map (fun i => Np.index nparray (Z.of_nat (i * curr_len / len)))
                  (Np.arange len)).

End Iterables.

(** ** The mobject *)

(** A numpy value held by a style attribute: a number or an array of values. *)
#[warnings="-register-all"]
Inductive ndarray : Type :=
| Scalar (x : Qc)
| Array (items : list ndarray).

(** The style attributes that are read and written by name. *)
Inductive attr : Type :=
| fill_rgbas
| stroke_rgbas
| background_stroke_rgbas
| stroke_width
| background_stroke_width
| sheen_direction
| sheen_factor.

Definition attr_eq_dec (a b : attr) : {a = b} + {a <> b}.
Proof. decide equality. Defined.

Record VMobject : Type := mkVMobject {
  points : list Point;
  tolerance_for_point_equality : Qc;
  style : attr -> ndarray
}.

(** [CONFIG["n_points_per_cubic_curve"]]. *)
Definition nppcc : nat := 4.

Definition with_points (self : VMobject) (pts : list Point) : VMobject :=
  mkVMobject pts (tolerance_for_point_equality self) (style self).

Definition getattr (self : VMobject) (a : attr) : ndarray := style self a.

Definition setattr (self : VMobject) (a : attr) (v : ndarray) : VMobject :=
  mkVMobject (points self) (tolerance_for_point_equality self)
             (fun b => if attr_eq_dec a b then v else style self b).

(** [len(v)] of a numpy value. *)
Definition len (v : ndarray) : result nat :=
  match v with
  | Scalar _ => Raise TypeError
  | Array items => Ok (length items)
  end.

(** The angle passed to [rotate_vector]. *)
Inductive angle : Type := PI.

(** What the module consumes from code outside it: the centre of a mobject
    ([Mobject.get_center]), the rotation of a vector about an axis
    ([utils.space_ops.rotate_vector]) and the interpolation of two numpy
    values ([utils.bezier.interpolate] on style attributes). *)
Class Collaborators : Type := {
  get_center : VMobject -> Point;
  rotate_vector : Point -> angle -> Point -> Point;
  interpolate : ndarray -> ndarray -> Qc -> ndarray
}.

(** ** The state-and-error monad of the mutating methods *)

Definition M (A : Type) : Type := VMobject -> result A * VMobject.

Definition ret {A : Type} (a : A) : M A := fun self => (Ok a, self).

Definition bind {A B : Type} (m : M A) (k : A -> M B) : M B :=
  fun self =>
    match m self with
    | (Ok a, self') => k a self'
    | (Raise e, self') => (Raise e, self')
    end.

Definition raise {A : Type} (e : exn) : M A := fun self => (Raise e, self).

Definition gets {A : Type} (f : VMobject -> A) : M A := fun self => (Ok (f self), self).

Definition lift {A : Type} (r : result A) : M A := fun self => (r, self).

Definition modify (f : VMobject -> VMobject) : M unit := fun self => (Ok tt, f self).

Declare Scope monad_scope.
Delimit Scope monad_scope with monad.
Notation "x <- m ;; k" := (bind m (fun x => k))
  (at level 61, m at next level, right associativity) : monad_scope.
Notation "m ;; k" := (bind m (fun _ => k))
  (at level 61, right associativity) : monad_scope.
Notation "x <-- r ;; k" := (result_bind r (fun x => k))
  (at level 61, r at next level, right associativity) : monad_scope.

Open Scope monad_scope.

Fixpoint mapM {A B : Type} (f : A -> M B) (l : list A) : M (list B) :=
  match l with
  | [] => ret []
  | a :: rest => b <- f a ;; bs <- mapM f rest ;; ret (b :: bs)
  end.

Fixpoint forM_ {A : Type} (l : list A) (f : A -> M unit) : M unit :=
  match l with
  | [] => ret tt
  | a :: rest => f a ;; forM_ rest f
  end.

(** The state a computation leaves and its outcome, apart. *)
Definition exec {A : Type} (m : M A) (self : VMobject) : result VMobject :=
  match m self with
  | (Ok _, self') => Ok self'
  | (Raise e, _) => Raise e
  end.

(** ** Methods of [VMobject] *)

Section Methods.

Context {C : Collaborators}.

(** *** Points *)

Definition set_points (pts : list Point) : M unit :=
  modify (fun self => with_points self pts).

Definition get_points (self : VMobject) : list Point := points self.

Definition clear_points : M unit :=
  modify (fun self => with_points self []).

Definition append_points (new_points : list Point) : M unit :=
  modify (fun self => with_points self (points self ++ new_points)).

Definition start_new_path (point : Point) : M unit :=
  append_points [point].

Definition add_cubic_bezier_curve (anchor1 handle1 handle2 anchor2 : Point) : M unit :=
  append_points [anchor1; handle1; handle2; anchor2].

(** Modelled from the spec: [get_num_points], [has_no_points] and
    [throw_error_if_no_points] belong to [Mobject], which is not among the
    sources; section 7 has curve construction on "a buffer with no points
    yet" raise. *)
Definition get_num_points (self : VMobject) : nat := length (points self).

Definition has_no_points (self : VMobject) : bool :=
  (get_num_points self =? 0)%nat.

Definition throw_error_if_no_points : M unit :=
  no_points <- gets has_no_points ;;
  if no_points
  then raise (Exception "Cannot call this method for a mobject with no points")
  else ret tt.

Definition has_new_path_started (self : VMobject) : bool :=
  (length (points self) mod nppcc =? 1)%nat.

Definition get_last_point (self : VMobject) : result Point :=
  Np.last_item (points self).

Definition add_cubic_bezier_curve_to (handle1 handle2 anchor : Point) : M unit :=
  throw_error_if_no_points ;;
  let new_points := [handle1; handle2; anchor] in
  started <- gets has_new_path_started ;;
  if started
  then append_points new_points
  else last_point <- bind (gets get_last_point) lift ;;
       append_points ([last_point] ++ new_points).

Definition add_line_to (point : Point) : M unit :=
  args <- mapM (fun a => last_point <- bind (gets get_last_point) lift ;;
                         ret (Bezier.interpolate last_point point a))
               (tl (Np.linspace 0 1 nppcc)) ;;
  match args with
  | [handle1; handle2; anchor] => add_cubic_bezier_curve_to handle1 handle2 anchor
  | _ => raise TypeError
  end.

Definition add_smooth_curve_to (pts : list Point) : M unit :=
  args <- match pts with
          | [new_anchor] => ret (None, new_anchor)
          | [handle2; new_anchor] => ret (Some handle2, new_anchor)
          | _ => raise (Exception "Only call add_smooth_curve_to with 1 or 2 points")
          end ;;
  let '(handle2, new_anchor) := args in
  started <- gets has_new_path_started ;;
  if started
  then add_line_to new_anchor
  else
    throw_error_if_no_points ;;
    tail <- gets (fun self => Np.zslice (points self) (-2) (Z.of_nat (length (points self)))) ;;
    match tail with
    | [last_h2; last_a2] =>
        let last_tangent := Vec.sub last_a2 last_h2 in
        let handle1 := Vec.add last_a2 last_tangent in
        let handle2 :=
          match handle2 with
          | None =>
              let to_anchor_vect := Vec.sub new_anchor last_a2 in
              let new_tangent := rotate_vector last_tangent PI to_anchor_vect in
              Vec.sub new_anchor new_tangent
          | Some h => h
          end in
        append_points [last_a2; handle1; handle2; new_anchor]
    | _ => raise ValueError
    end.

(** *** Point equality *)

Definition consider_points_equals (self : VMobject) (p0 p1 : Point) : bool :=
  Np.allclose p0 p1 (tolerance_for_point_equality self).

(** *** Curves and subpaths *)

Definition gen_cubic_bezier_tuples_from_points (pts : list Point) : list (list Point) :=
  let remainder := (length pts mod nppcc)%nat in
  let pts := Np.slice pts 0 (length pts - remainder) in
  map (fun i => Np.slice pts i (i + nppcc)) (Np.range 0 (length pts) nppcc).

Definition get_cubic_bezier_tuples_from_points (pts : list Point) : list (list Point) :=
  gen_cubic_bezier_tuples_from_points pts.

Definition get_cubic_bezier_tuples (self : VMobject) : list (list Point) :=
  get_cubic_bezier_tuples_from_points (get_points self).

Definition _gen_subpaths_from_points (pts : list Point) (filter_func : nat -> bool)
  : list (list Point) :=
  let split_indices := filter filter_func (Np.range nppcc (length pts) nppcc) in
  let split_indices := [0%nat] ++ split_indices ++ [length pts] in
  map (fun '(i1, i2) => Np.slice pts i1 i2)
      (filter (fun '(i1, i2) => (Z.of_nat nppcc <=? Z.of_nat i2 - Z.of_nat i1)%Z)
              (Np.adjacent split_indices)).

(** [points[n]] inside the filter, where [n - 1] and [n] are valid
    indices; the value outside the buffer is never read. *)
Definition point_at (pts : list Point) (n : nat) : Point := nth n pts Vec.ORIGIN.

Definition get_subpaths_from_points (self : VMobject) (pts : list Point)
  : list (list Point) :=
  _gen_subpaths_from_points pts
    (fun n => negb (consider_points_equals self (point_at pts (n - 1)) (point_at pts n))).

Definition get_subpaths (self : VMobject) : list (list Point) :=
  get_subpaths_from_points self (get_points self).

Definition get_num_curves (self : VMobject) : nat :=
  (length (points self) / nppcc)%nat.

(** *** Curve insertion *)

(** Lines 806-815: how many pieces each of [curr_num] curves is cut into
    when [target_num] curves are wanted. *)
Definition split_factors (curr_num target_num : nat) : list nat :=
  let repeat_indices :=
    map (fun i => (i * curr_num / target_num)%nat) (Np.arange target_num) in
  map (fun i => length (filter (Nat.eqb i) repeat_indices)) (Np.range 0 curr_num 1).

(** Lines 821-827: the [sf] pieces of one curve. *)
Definition split_quad (quad : list Point) (sf : nat) : list Point :=
  let alphas := Np.linspace 0 1 (sf + 1) in
  flat_map (fun '(a1, a2) => Bezier.partial_bezier_points quad a1 a2)
           (Np.adjacent alphas).

Definition insert_n_curves_to_point_list (n : nat) (pts : list Point) : list Point :=
  if (length pts =? 1)%nat
  then Np.np_repeat pts (nppcc * n)
  else
    let bezier_quads := get_cubic_bezier_tuples_from_points pts in
    let curr_num := length bezier_quads in
    let target_num := (curr_num + n)%nat in
    flat_map (fun '(quad, sf) => split_quad quad sf)
             (combine bezier_quads (split_factors curr_num target_num)).

Definition insert_n_curves (n : nat) : M unit :=
  started <- gets has_new_path_started ;;
  new_path_point <- (if started
                     then p <- bind (gets get_last_point) lift ;; ret (Some p)
                     else ret None) ;;
  new_points <- gets (fun self => insert_n_curves_to_point_list n (get_points self)) ;;
  set_points new_points ;;
  match new_path_point with
  | Some p => append_points [p]
  | None => ret tt
  end.

(** *** Alignment *)

Definition stretch (v : ndarray) (n : nat) : result ndarray :=
  match v with
  | Scalar _ => Raise TypeError
  | Array items =>
      new_items <-- Iterables.stretch_array_to_length items n ;;
      Ok (Array new_items)
  end.

(** Lines 833-840: the body of the loop over the three colour arrays. *)
Definition align_rgbas_attr (acc : result (VMobject * VMobject)) (a : attr)
  : result (VMobject * VMobject) :=
  mobs <-- acc ;;
  let '(self, vmobject) := mobs in
  let a1 := getattr self a in
  let a2 := getattr vmobject a in
  n1 <-- len a1 ;;
  n2 <-- len a2 ;;
  if n2 <? n1
  then new_a2 <-- stretch a2 n1 ;; Ok (self, setattr vmobject a new_a2)
  else if n1 <? n2
       then new_a1 <-- stretch a1 n2 ;; Ok (setattr self a new_a1, vmobject)
       else Ok (self, vmobject).

Definition align_rgbas (self vmobject : VMobject) : result (VMobject * VMobject) :=
  fold_left align_rgbas_attr
            [fill_rgbas; stroke_rgbas; background_stroke_rgbas]
            (Ok (self, vmobject)).

(** Lines 761-765. *)
Definition get_nth_subpath (path_list : list (list Point)) (n : nat)
  : result (list Point) :=
  if length path_list <=? n
  then
    last_path <-- Np.last_item path_list ;;
    p <-- Np.last_item last_path ;;
    Ok (repeat p nppcc)
  else Np.index path_list (Z.of_nat n).

(** Lines 741-749: the body of the loop over both mobjects. *)
Definition complete_path : M unit :=
  no_points <- gets has_no_points ;;
  (if no_points
   then center <- gets get_center ;; start_new_path center
   else ret tt) ;;
  started <- gets has_new_path_started ;;
  if started
  then last_point <- bind (gets get_last_point) lift ;; add_line_to last_point
  else ret tt.

(** Lines 767-775: one round of the loop over the subpath indices. *)
Definition align_subpaths (subpaths1 subpaths2 : list (list Point))
           (acc : result (list Point * list Point)) (n : nat)
  : result (list Point * list Point) :=
  new_paths <-- acc ;;
  let '(new_path1, new_path2) := new_paths in
  sp1 <-- get_nth_subpath subpaths1 n ;;
  sp2 <-- get_nth_subpath subpaths2 n ;;
  let len1 := Z.of_nat (length sp1) in
  let len2 := Z.of_nat (length sp2) in
  let diff1 := Z.to_nat (Z.max 0 ((len2 - len1) / Z.of_nat nppcc)) in
  let diff2 := Z.to_nat (Z.max 0 ((len1 - len2) / Z.of_nat nppcc)) in
  let sp1 := insert_n_curves_to_point_list diff1 sp1 in
  let sp2 := insert_n_curves_to_point_list diff2 sp2 in
  Ok (new_path1 ++ sp1, new_path2 ++ sp2).

Definition align_points (self vmobject : VMobject) : result (VMobject * VMobject) :=
  mobs <-- align_rgbas self vmobject ;;
  let '(self, vmobject) := mobs in
  if get_num_points self =? get_num_points vmobject
  then Ok (self, vmobject)
  else
    self <-- exec complete_path self ;;
    vmobject <-- exec complete_path vmobject ;;
    let subpaths1 := get_subpaths self in
    let subpaths2 := get_subpaths vmobject in
    let n_subpaths := Nat.max (length subpaths1) (length subpaths2) in
    new_paths <-- fold_left (align_subpaths subpaths1 subpaths2)
                            (Np.range 0 n_subpaths 1) (Ok ([], [])) ;;
    let '(new_path1, new_path2) := new_paths in
    self <-- exec (set_points new_path1) self ;;
    vmobject <-- exec (set_points new_path2) vmobject ;;
    Ok (self, vmobject).

(** *** Style interpolation *)


(** *** Partial curves *)

Definition pointwise_become_partial (vmobject : VMobject) (a b : Qc) : M unit :=
  if Scalar.leb a 0 && Scalar.leb 1 b
  then set_points (points vmobject)
  else
    let bezier_quads := get_cubic_bezier_tuples vmobject in
    let num_cubics := length bezier_quads in
    let '(lower_index, lower_residue) :=
      Bezier.integer_interpolate 0 (Z.of_nat num_cubics) a in
    let '(upper_index, upper_residue) :=
      Bezier.integer_interpolate 0 (Z.of_nat num_cubics) b in
    clear_points ;;
    if num_cubics =? 0
    then ret tt
    else if (lower_index =? upper_index)%Z
         then
           quad <- lift (Np.index bezier_quads lower_index) ;;
           append_points (Bezier.partial_bezier_points quad lower_residue upper_residue)
         else
           quad <- lift (Np.index bezier_quads lower_index) ;;
           append_points (Bezier.partial_bezier_points quad lower_residue 1) ;;
           forM_ (Np.zslice bezier_quads (lower_index + 1) upper_index) append_points ;;
           quad <- lift (Np.index bezier_quads upper_index) ;;
           append_points (Bezier.partial_bezier_points quad 0 upper_residue).

End Methods.

(** ** Further methods of [VMobject] *)

(** A failed [assert]. *)
Definition AssertionError : exn := Exception "AssertionError".

Definition assert (b : bool) : M unit :=
  if b then ret tt else raise AssertionError.

(** A map that also sees the position of each element, counted from [i]. *)
Fixpoint imap_from {A B : Type} (i : nat) (f : nat -> A -> B) (l : list A) : list B :=
  match l with
  | [] => []
  | x :: rest => f i x :: imap_from (S i) f rest
  end.

(** Whether position [i] belongs to the stride [start::step]. *)
Definition on_stride (start step i : nat) : bool :=
  (start <=? i) && ((i - start) mod step =? 0).

(** [l[start::step]]. *)
Definition strided {A : Type} (l : list A) (start step : nat) : list A :=
  flat_map (fun i => match nth_error l i with Some a => [a] | None => [] end)
           (Np.range start (length l) step).

(** [l[start::step] = vals]: the positions of the stride take the values of
    the same rank; a single value is broadcast, and any other mismatch of
    numbers is numpy's [ValueError]. *)
Definition strided_assign {A : Type} (l : list A) (start step : nat) (vals : list A)
  : result (list A) :=
  if length vals =? length (Np.range start (length l) step)
  then Ok (imap_from 0 (fun i x => if on_stride start step i
                                   then nth ((i - start) / step) vals x
                                   else x) l)
  else match vals with
       | [v] => Ok (imap_from 0 (fun i x => if on_stride start step i then v else x) l)
       | _ => Raise ValueError
       end.

(** The four arguments are arrays of points, of shape [(n, 3)]. *)
Definition set_anchors_and_handles (anchors1 handles1 handles2 anchors2 : list Point)
  : M unit :=
  assert ((length anchors1 =? length handles1)
          && (length handles1 =? length handles2)
          && (length handles2 =? length anchors2)) ;;
  let total_len := nppcc * length anchors1 in
  modify (fun self => with_points self (repeat Vec.ORIGIN total_len)) ;;
  forM_ (combine (seq 0 4) [anchors1; handles1; handles2; anchors2])
        (fun '(index, array) =>
           new_points <- bind (gets (fun self => strided_assign (points self) index nppcc array))
                              lift ;;
           modify (fun self => with_points self new_points)).

Definition get_anchors_and_handles (self : VMobject) : list (list Point) :=
  map (fun i => strided (points self) i nppcc) (Np.range 0 nppcc 1).

Definition get_start_anchors (self : VMobject) : list Point :=
  strided (points self) 0 nppcc.

Definition get_end_anchors (self : VMobject) : list Point :=
  strided (points self) (nppcc - 1) nppcc.

Definition get_anchors (self : VMobject) : list Point :=
  if length (points self) =? 1
  then points self
  else flat_map (fun '(a1, a2) => [a1; a2])
                (combine (get_start_anchors self) (get_end_anchors self)).

Definition get_nth_curve_points (self : VMobject) (n : Z) : result (list Point) :=
  if (n <? Z.of_nat (get_num_curves self))%Z
  then Ok (Np.zslice (points self) (Z.of_nat nppcc * n) (Z.of_nat nppcc * (n + 1)))
  else Raise AssertionError.

Definition is_closed (self : VMobject) : result bool :=
  first_point <-- Np.index (points self) 0 ;;
  last_point <-- Np.index (points self) (-1) ;;
  Ok (consider_points_equals self first_point last_point).

Definition add_points_as_corners (pts : list Point) : M (list Point) :=
  forM_ pts add_line_to ;;
  ret pts.

(** [interpolate(points[:-1], points[1:], a)]: two arrays of the same shape,
    combined row by row. *)
Definition interpolate_rows (starts stops : list Point) (alpha : Qc) : list Point :=
  map (fun '(p, q) => Bezier.interpolate p q alpha) (combine starts stops).

(** [pts] is the array [np.array(points)] of the corners, of shape
    [(n, 3)]. *)
Definition set_points_as_corners (pts : list Point) : M unit :=
  let args := map (interpolate_rows (Np.zslice pts 0 (-1))
                                    (Np.zslice pts 1 (Z.of_nat (length pts))))
                  (Np.linspace (Q2Qc 0) (Q2Qc 1) nppcc) in
  match args with
  | [anchors1; handles1; handles2; anchors2] =>
      set_anchors_and_handles anchors1 handles1 handles2 anchors2
  | _ => raise TypeError
  end.



Definition consider_points_equals_2d (self : VMobject) (p0 p1 : Point) : bool :=
  let rtol := Scalar.frac 1 100000 in
  let atol := tolerance_for_point_equality self in
  if negb (Scalar.leb (Scalar.abs (px p0 - px p1)%Qc) (atol + rtol * Scalar.abs (px p1))%Qc)
  then false
  else if negb (Scalar.leb (Scalar.abs (py p0 - py p1)%Qc)
                           (atol + rtol * Scalar.abs (py p1))%Qc)
       then false
       else true.

Definition gen_subpaths_from_points_2d (self : VMobject) (pts : list Point)
  : list (list Point) :=
  _gen_subpaths_from_points pts
    (fun n => negb (consider_points_equals_2d self (point_at pts (n - 1)) (point_at pts n))).

(** ** Vocabulary of the statements *)

(** The length invariant of a path buffer: complete curves, possibly
    followed by the point that opens the next one. *)
Definition length_invariant (pts : list Point) : Prop :=
  length pts mod nppcc = 0 \/ length pts mod nppcc = 1.

(** The number of the first new curve cut from curve [k] when [curr_num]
    curves become [target_num]: the least [i] with
    [k * target_num <= i * curr_num]. *)
Definition piece_start (curr_num target_num k : nat) : nat :=
  (k * target_num + (curr_num - 1)) / curr_num.

(** A computation raises from a given state. *)
Definition raises {A : Type} (m : M A) (self : VMobject) : Prop :=
  exists e, fst (m self) = Raise e.

(** The three points [add_line_to] hands to [add_cubic_bezier_curve_to]. *)
Definition line_points (last_point point : Point) : list Point :=
  map (Bezier.interpolate last_point point) (tl (Np.linspace 0 1 nppcc)).

(** Sample data of the examples: points on the first axis and a mobject
    with the default tolerance and one-row style arrays. *)
Definition on_axis (x : Z) : Point :=
  mkPoint (Scalar.of_Z x) (Scalar.of_Z 0) (Scalar.of_Z 0).

Definition sample (pts : list Point) : VMobject :=
  mkVMobject pts (Scalar.frac 1 1000000) (fun _ => Array [Array [Scalar (Scalar.of_Z 1)]]).

#[export] Instance sample_collaborators : Collaborators := {
  get_center := fun _ => Vec.ORIGIN;
  rotate_vector := fun v _ _ => v;
  interpolate := fun a _ _ => a
}.

(** Twelve points on the axis: three complete curves. *)
Definition three_curves : list Point :=
  map on_axis [0; 1; 2; 3; 3; 4; 5; 6; 6; 7; 8; 9]%Z.

(** The indices at which [get_subpaths_from_points] cuts the buffer: the
    filtered range of line 645 with the filter of lines 657-659. *)
Definition split_indices (self : VMobject) (pts : list Point) : list nat :=
  filter (fun n => negb (consider_points_equals self (point_at pts (n - 1)) (point_at pts n)))
         (Np.range nppcc (length pts) nppcc).

(** A list of indices that climbs from [lo] by at least one curve at a time. *)
Fixpoint gapped (lo : nat) (l : list nat) : Prop :=
  match l with
  | [] => True
  | x :: rest => lo + nppcc <= x /\ gapped x rest
  end.

(** Two single-subpath buffers along the axis, of two and of five curves,
    and two buffers of six and of twelve coincident points. *)
Definition two_curves : list Point :=
  map on_axis [0; 1; 2; 3; 3; 4; 5; 6]%Z.

Definition five_curves : list Point :=
  map on_axis [0; 1; 2; 3; 3; 4; 5; 6; 6; 7; 8; 9; 9; 10; 11; 12; 12; 13; 14; 15]%Z.

Definition six_points : list Point := repeat Vec.ORIGIN 6.

Definition twelve_points : list Point := repeat Vec.ORIGIN 12.

(** The coordinates of a point as plain fractions, for the examples. *)
Definition fractions (p : Point) : Q * Q * Q := (this (px p), this (py p), this (pz p)).

(** Two straight segments drawn one after the other, from 0 to 3 and from 5
    to 8 on the axis. *)
Definition two_segments : M unit :=
  start_new_path (on_axis 0) ;;
  add_line_to (on_axis 3) ;;
  start_new_path (on_axis 5) ;;
  add_line_to (on_axis 8).

(** The indices at which [gen_subpaths_from_points_2d] cuts the buffer. *)
Definition split_indices_2d (self : VMobject) (pts : list Point) : list nat :=
  filter (fun n => negb (consider_points_equals_2d self (point_at pts (n - 1))
                                                   (point_at pts n)))
         (Np.range nppcc (length pts) nppcc).

(** Four arrays read as the columns of a list of curves: the points of the
    curves, one curve after the other. *)
Fixpoint interleave (anchors1 handles1 handles2 anchors2 : list Point) : list Point :=
  match anchors1, handles1, handles2, anchors2 with
  | a1 :: anchors1', h1 :: handles1', h2 :: handles2', a2 :: anchors2' =>
      a1 :: h1 :: h2 :: a2 :: interleave anchors1' handles1' handles2' anchors2'
  | _, _, _, _ => []
  end.

(** The array that stride [j] of a buffer holds. *)
Definition column (j : nat) (anchors1 handles1 handles2 anchors2 : list Point)
  : list Point :=
  match j with
  | 0 => anchors1
  | 1 => handles1
  | 2 => handles2
  | _ => anchors2
  end.

(** * Properties *)

(** ** The model on the inputs the source and the specification give *)

(** The comment of lines 801-811: ten curves made fifteen. *)
Example split_factors_10_15 : split_factors 10 15 = [2; 1; 2; 1; 2; 1; 2; 1; 2; 1].
Proof. reflexivity. Qed.

(** Section 8: the second half of the straight curve from 0 to 3. *)
Example partial_bezier_points_half :
  map fractions (Bezier.partial_bezier_points
                   [on_axis 0; on_axis 1; on_axis 2; on_axis 3]
                   (Scalar.frac 1 2) (Scalar.of_Z 1))
  = [(3 # 2, 0, 0); (2 # 1, 0, 0); (5 # 2, 0, 0); (3 # 1, 0, 0)]%Q.
Proof. vm_compute. reflexivity. Qed.

(** Section 8: two segments with a gap between them are two subpaths. *)
Example two_segments_subpaths :
  match exec two_segments (sample []) with
  | Ok self => (map fractions (points self), map (@length Point) (get_subpaths self))
  | Raise _ => ([], [])
  end
  = ([(0, 0, 0); (1, 0, 0); (2, 0, 0); (3, 0, 0);
      (5 # 1, 0, 0); (6 # 1, 0, 0); (7 # 1, 0, 0); (8 # 1, 0, 0)]%Q,
     [4; 4]).
Proof. vm_compute. reflexivity. Qed.

(** ** Sequences *)

Section SequenceFacts.

Context {A : Type}.

Lemma slice_length (l : list A) (i1 i2 : nat) :
  length (Np.slice l i1 i2) = Nat.min (i2 - i1) (length l - i1).
Proof.
  unfold Np.slice. now rewrite length_firstn, length_skipn.
Qed.

Lemma slice_all (l : list A) : Np.slice l 0 (length l) = l.
Proof.
  unfold Np.slice. rewrite Nat.sub_0_r. simpl. apply firstn_all.
Qed.

Lemma firstn_plus (a b : nat) (l : list A) :
  firstn (a + b) l = firstn a l ++ firstn b (skipn a l).
Proof.
  revert l. induction a as [|a IH]; intros [|x l]; simpl; trivial.
  - now rewrite firstn_nil.
  - now rewrite IH.
Qed.

Lemma slice_app (l : list A) (i j k : nat) :
  i <= j -> j <= k -> Np.slice l i j ++ Np.slice l j k = Np.slice l i k.
Proof.
  intros Hij Hjk. unfold Np.slice.
  replace (k - i) with ((j - i) + (k - j)) by lia.
  rewrite firstn_plus, skipn_skipn.
  now replace (j - i + i) with j by lia.
Qed.

Lemma slice_prefix (l r : list A) (i j : nat) :
  j <= length l -> Np.slice (l ++ r) i j = Np.slice l i j.
Proof.
  intros Hj. unfold Np.slice.
  rewrite skipn_app, firstn_app, length_skipn.
  replace (j - i - (length l - i)) with 0 by lia.
  rewrite firstn_O. apply app_nil_r.
Qed.

Lemma np_repeat_singleton (a : A) (k : nat) : Np.np_repeat [a] k = repeat a k.
Proof. unfold Np.np_repeat. simpl. apply app_nil_r. Qed.

Lemma adjacent_length (l : list A) : length (Np.adjacent l) = length l - 1.
Proof.
  unfold Np.adjacent. rewrite length_combine.
  destruct l; cbn [length tl]; lia.
Qed.

Lemma flat_map_length_const {B : Type} (f : A -> list B) (l : list A) (k : nat) :
  Forall (fun a => length (f a) = k) l -> length (flat_map f l) = k * length l.
Proof.
  induction 1 as [|a l Ha _ IH]; simpl.
  - lia.
  - rewrite length_app, Ha, IH. lia.
Qed.

End SequenceFacts.

Lemma range_unit (n : nat) : Np.range 0 n 1 = seq 0 n.
Proof.
  unfold Np.range. rewrite Nat.sub_0_r, Nat.add_0_r, Nat.div_1_r.
  rewrite <- (map_id (seq 0 n)) at 2. apply map_ext. intros k. lia.
Qed.

Lemma range_length (start stop step : nat) :
  length (Np.range start stop step) = (stop - start + (step - 1)) / step.
Proof. unfold Np.range. now rewrite length_map, length_seq. Qed.

Lemma range_In (start stop step n : nat) :
  0 < step ->
  In n (Np.range start stop step) <->
  start <= n < stop /\ (n - start) mod step = 0.
Proof.
  intros Hstep. unfold Np.range. rewrite in_map_iff. split.
  - intros (k & <- & Hk). apply in_seq in Hk. destruct Hk as [_ Hk]. simpl in Hk.
    pose proof (Nat.div_mod_eq (stop - start + (step - 1)) step) as E.
    assert (Hlt : k * step + step <= stop - start + (step - 1)) by nia.
    split.
    + lia.
    + replace (start + k * step - start) with (k * step) by lia.
      apply Nat.Div0.mod_mul.
  - intros [[Hlo Hhi] Hmod].
    exists ((n - start) / step). split.
    + pose proof (Nat.div_mod_eq (n - start) step) as E. rewrite Hmod in E. nia.
    + apply in_seq. split; [lia|]. simpl.
      apply Nat.Div0.div_lt_upper_bound.
      pose proof (Nat.div_mod_eq (n - start) step) as E. rewrite Hmod in E.
      pose proof (Nat.div_mod_eq (stop - start + (step - 1)) step) as E2.
      pose proof (Nat.mod_upper_bound (stop - start + (step - 1)) step ltac:(lia)).
      nia.
Qed.

(** ** Curve splitting keeps the number of control points *)

Lemma casteljau_row_length (t : Qc) (l : list Point) :
  length (Bezier.casteljau_row t l) = length l - 1.
Proof.
  induction l as [|a [|b l] IH]; trivial.
  change (S (length (Bezier.casteljau_row t (b :: l))) = S (length (b :: l)) - 1).
  rewrite IH. simpl. lia.
Qed.

Lemma trim_upper_length (fuel : nat) (t : Qc) (l : list Point) :
  length l <= fuel -> length (Bezier.trim_upper fuel t l) = length l.
Proof.
  revert l.
  induction fuel as [|fuel IH]; intros [|p l] H;
    cbn [Bezier.trim_upper length] in *; try lia.
  rewrite IH; rewrite casteljau_row_length; cbn [length]; lia.
Qed.

Lemma trim_lower_length (fuel : nat) (t : Qc) (l : list Point) :
  length l <= fuel -> length (Bezier.trim_lower fuel t l) = length l.
Proof.
  revert l.
  induction fuel as [|fuel IH]; intros [|p l] H;
    cbn [Bezier.trim_lower length] in *; try lia.
  rewrite length_app, IH; rewrite casteljau_row_length; cbn [length]; lia.
Qed.

Lemma partial_bezier_points_length (pts : list Point) (a b : Qc) :
  length (Bezier.partial_bezier_points pts a b) = length pts.
Proof.
  unfold Bezier.partial_bezier_points.
  rewrite trim_lower_length; rewrite trim_upper_length; lia.
Qed.

Lemma linspace_length (start stop : Qc) (num : nat) :
  length (Np.linspace start stop num) = num.
Proof. unfold Np.linspace. now rewrite length_map, length_seq. Qed.

Lemma split_quad_length (quad : list Point) (sf : nat) :
  length (split_quad quad sf) = length quad * sf.
Proof.
  unfold split_quad.
  rewrite flat_map_length_const with (k := length quad).
  - rewrite adjacent_length, linspace_length. f_equal. lia.
  - apply Forall_forall. intros [a1 a2] _. apply partial_bezier_points_length.
Qed.

(** ** The curves of a point list *)

Lemma tuples_length (pts : list Point) :
  length (gen_cubic_bezier_tuples_from_points pts) = length pts / nppcc.
Proof.
  unfold gen_cubic_bezier_tuples_from_points, nppcc.
  rewrite length_map, range_length, slice_length.
  pose proof (Nat.div_mod_eq (length pts) 4) as E.
  pose proof (Nat.mod_upper_bound (length pts) 4 ltac:(lia)) as B.
  replace (Nat.min (length pts - length pts mod 4 - 0) (length pts - 0) - 0 + (4 - 1))
    with (3 + (length pts / 4) * 4) by lia.
  rewrite Nat.div_add by lia. reflexivity.
Qed.

Lemma tuples_Forall_length (pts : list Point) :
  Forall (fun quad => length quad = nppcc) (gen_cubic_bezier_tuples_from_points pts).
Proof.
  unfold gen_cubic_bezier_tuples_from_points, nppcc.
  apply Forall_forall. intros quad Hin.
  apply in_map_iff in Hin. destruct Hin as (i & <- & Hi).
  apply range_In in Hi; [|lia]. destruct Hi as [[_ Hi] Hmod].
  rewrite !slice_length in *.
  pose proof (Nat.div_mod_eq (length pts) 4) as E.
  pose proof (Nat.mod_upper_bound (length pts) 4 ltac:(lia)) as B.
  rewrite Nat.sub_0_r in Hmod.
  pose proof (Nat.div_mod_eq i 4) as Ei. rewrite Hmod in Ei.
  lia.
Qed.

(** ** Split factors *)

Section SplitFactors.

Variables curr_num target_num : nat.
Hypothesis curr_pos : 1 <= curr_num.
Hypothesis target_ge : curr_num <= target_num.

Let start := piece_start curr_num target_num.

Lemma piece_start_le (k i : nat) : start k <= i <-> k * target_num <= i * curr_num.
Proof.
  unfold start, piece_start.
  pose proof (Nat.div_mod_eq (k * target_num + (curr_num - 1)) curr_num) as E.
  pose proof (Nat.mod_upper_bound (k * target_num + (curr_num - 1)) curr_num
                ltac:(lia)) as B.
  split; intros H; nia.
Qed.

Lemma piece_start_0 : start 0 = 0.
Proof.
  assert (H : start 0 <= 0) by (apply piece_start_le; lia). lia.
Qed.

Lemma piece_start_last : start curr_num = target_num.
Proof.
  assert (H1 : start curr_num <= target_num) by (apply piece_start_le; lia).
  assert (H2 : ~ start curr_num <= target_num - 1).
  { rewrite piece_start_le. nia. }
  lia.
Qed.

Lemma piece_start_step (k : nat) : start k < start (S k).
Proof.
  assert (H : ~ start (S k) <= start k).
  { rewrite piece_start_le.
    pose proof (proj1 (piece_start_le k (start k)) (le_n _)) as Hk.
    assert (Hlt : start k * curr_num < k * target_num + curr_num).
    { assert (Hn : ~ start k <= start k - 1 \/ start k = 0) by lia.
      destruct Hn as [Hn | Hn]; [|rewrite Hn; lia].
      rewrite piece_start_le in Hn. nia. }
    nia. }
  lia.
Qed.

Lemma piece_start_mono (j k : nat) : j <= k -> start j <= start k.
Proof.
  induction 1 as [|k _ IH]; [lia|].
  pose proof (piece_start_step k). lia.
Qed.


(** The new curves cut from curve [k] are those numbered from [start k] up
    to [start (k + 1)]. *)
Lemma repeat_index_eqb (k i : nat) :
  (k =? i * curr_num / target_num) = (start k <=? i) && (i <? start (S k)).
Proof.
  assert (Hdiv : i * curr_num / target_num = k <->
                 k * target_num <= i * curr_num < S k * target_num).
  { pose proof (Nat.div_mod_eq (i * curr_num) target_num) as E.
    pose proof (Nat.mod_upper_bound (i * curr_num) target_num ltac:(lia)) as B.
    split; intros H; nia. }
  pose proof (piece_start_le k i) as Hlo.
  pose proof (piece_start_le (S k) i) as Hhi.
  destruct (Nat.eqb_spec k (i * curr_num / target_num)) as [Heq | Hne];
    destruct (Nat.leb_spec (start k) i); destruct (Nat.ltb_spec i (start (S k)));
    simpl; trivial; exfalso.
  - symmetry in Heq. apply Hdiv in Heq. lia.
  - symmetry in Heq. apply Hdiv in Heq. lia.
  - symmetry in Heq. apply Hdiv in Heq. lia.
  - apply Hne. symmetry. apply Hdiv. lia.
Qed.

Lemma interval_count (lo hi n : nat) :
  length (filter (fun i => (lo <=? i) && (i <? hi)) (seq 0 n))
  = Nat.min hi n - Nat.min lo n.
Proof.
  induction n as [|n IH]; [simpl; lia|].
  rewrite seq_S, filter_app, length_app, IH. simpl.
  destruct (Nat.leb_spec lo n); destruct (Nat.ltb_spec n hi); simpl; lia.
Qed.

Lemma split_factor_count (k : nat) :
  k < curr_num ->
  length (filter (Nat.eqb k)
                 (map (fun i => i * curr_num / target_num) (Np.arange target_num)))
  = start (S k) - start k.
Proof.
  intros Hk. unfold Np.arange.
  rewrite filter_map_swap, length_map.
  rewrite (filter_ext _ _ (repeat_index_eqb k)), interval_count.
  pose proof (piece_start_mono (k := curr_num) (j := S k) ltac:(lia)) as H1.
  pose proof (piece_start_step k) as H2.
  rewrite piece_start_last in H1. lia.
Qed.

Lemma split_factors_eq :
  split_factors curr_num target_num
  = map (fun k => start (S k) - start k) (seq 0 curr_num).
Proof.
  unfold split_factors. rewrite range_unit.
  apply map_ext_in. intros k Hk. apply in_seq in Hk.
  apply split_factor_count. lia.
Qed.

Lemma split_factors_length : length (split_factors curr_num target_num) = curr_num.
Proof. rewrite split_factors_eq. now rewrite length_map, length_seq. Qed.


Lemma split_factors_sum : list_sum (split_factors curr_num target_num) = target_num.
Proof.
  rewrite split_factors_eq.
  assert (H : forall m, list_sum (map (fun k => start (S k) - start k) (seq 0 m))
                        = start m - start 0).
  { induction m as [|m IH]; [simpl; lia|].
    rewrite seq_S, map_app, list_sum_app, IH. simpl.
    pose proof (piece_start_step m). pose proof (piece_start_mono (j := 0) (k := m)).
    lia. }
  rewrite H, piece_start_0, piece_start_last. lia.
Qed.

End SplitFactors.

(** ** Curve insertion on a point list *)

Lemma split_all_length (quads : list (list Point)) (sfs : list nat) :
  Forall (fun quad => length quad = nppcc) quads ->
  length quads = length sfs ->
  length (flat_map (fun '(quad, sf) => split_quad quad sf) (combine quads sfs))
  = nppcc * list_sum sfs.
Proof.
  intros Hq. revert sfs.
  induction Hq as [|quad quads Hquad _ IH]; intros [|sf sfs] Hlen;
    simpl in Hlen; try discriminate.
  - reflexivity.
  - cbn [combine flat_map].
    change (list_sum (sf :: sfs)) with (sf + list_sum sfs).
    rewrite length_app, split_quad_length, Hquad, IH by lia.
    unfold nppcc. lia.
Qed.

Lemma insert_point_list_single (n : nat) (p : Point) :
  insert_n_curves_to_point_list n [p] = repeat p (nppcc * n).
Proof.
  unfold insert_n_curves_to_point_list.
  cbn [length Nat.eqb]. apply np_repeat_singleton.
Qed.

Lemma insert_point_list_unfold (n : nat) (pts : list Point) :
  length pts <> 1 ->
  insert_n_curves_to_point_list n pts
  = flat_map (fun '(quad, sf) => split_quad quad sf)
             (combine (get_cubic_bezier_tuples_from_points pts)
                      (split_factors (length pts / nppcc) (length pts / nppcc + n))).
Proof.
  intros H. unfold insert_n_curves_to_point_list.
  destruct (Nat.eqb_spec (length pts) 1) as [E|_]; [contradiction|].
  unfold get_cubic_bezier_tuples_from_points. now rewrite tuples_length.
Qed.

Lemma insert_point_list_length (n : nat) (pts : list Point) :
  nppcc <= length pts ->
  length (insert_n_curves_to_point_list n pts) = nppcc * (length pts / nppcc + n).
Proof.
  intros H. unfold nppcc in H.
  assert (Hcurr : 1 <= length pts / nppcc).
  { unfold nppcc. apply Nat.div_le_lower_bound; lia. }
  rewrite insert_point_list_unfold by lia.
  rewrite split_all_length.
  - rewrite split_factors_sum; trivial; lia.
  - apply tuples_Forall_length.
  - unfold get_cubic_bezier_tuples_from_points.
    rewrite tuples_length, split_factors_length; trivial; lia.
Qed.

Lemma insert_point_list_short (n : nat) (pts : list Point) :
  length pts < nppcc -> length pts <> 1 ->
  insert_n_curves_to_point_list n pts = [].
Proof.
  intros H H1. rewrite insert_point_list_unfold by trivial.
  pose proof (tuples_length pts) as E.
  rewrite Nat.div_small in E by trivial.
  unfold get_cubic_bezier_tuples_from_points.
  destruct (gen_cubic_bezier_tuples_from_points pts); [reflexivity|discriminate].
Qed.

Lemma insert_point_list_mod (n : nat) (pts : list Point) :
  length (insert_n_curves_to_point_list n pts) mod nppcc = 0.
Proof.
  destruct (Nat.eq_dec (length pts) 1) as [E|E].
  - destruct pts as [|p [|q pts]]; try discriminate.
    rewrite insert_point_list_single, repeat_length.
    rewrite Nat.mul_comm. apply Nat.Div0.mod_mul.
  - destruct (Nat.lt_ge_cases (length pts) nppcc) as [Hlt|Hge].
    + now rewrite insert_point_list_short.
    + rewrite insert_point_list_length by trivial.
      rewrite Nat.mul_comm. apply Nat.Div0.mod_mul.
Qed.

Lemma slice_of_prefix (pts : list Point) (m i j : nat) :
  j <= m -> m <= length pts -> Np.slice (Np.slice pts 0 m) i j = Np.slice pts i j.
Proof.
  intros Hj Hm.
  rewrite <- (firstn_skipn m pts) at 2.
  rewrite slice_prefix.
  - unfold Np.slice at 2. now rewrite Nat.sub_0_r, skipn_0.
  - rewrite length_firstn. lia.
Qed.

Lemma range_nth_error (start stop step k : nat) :
  k < (stop - start + (step - 1)) / step ->
  nth_error (Np.range start stop step) k = Some (start + k * step).
Proof.
  intros Hk. unfold Np.range.
  rewrite nth_error_map, nth_error_seq.
  destruct (Nat.ltb_spec k ((stop - start + (step - 1)) / step)); [reflexivity|lia].
Qed.

Lemma tuples_nth_error (pts : list Point) (k : nat) :
  k < length pts / nppcc ->
  nth_error (gen_cubic_bezier_tuples_from_points pts) k
  = Some (Np.slice pts (nppcc * k) (nppcc * k + nppcc)).
Proof.
  intros Hk.
  pose proof (tuples_length pts) as Hlen.
  unfold gen_cubic_bezier_tuples_from_points in *.
  rewrite length_map, range_length in Hlen.
  rewrite nth_error_map, range_nth_error by (rewrite Hlen; exact Hk).
  cbn [option_map]. f_equal.
  unfold nppcc in *.
  pose proof (Nat.div_mod_eq (length pts) 4) as E.
  replace (0 + k * 4) with (4 * k) by lia.
  apply slice_of_prefix; lia.
Qed.


Lemma tuples_ignore_remainder (body rest : list Point) :
  length body mod nppcc = 0 -> length rest < nppcc ->
  gen_cubic_bezier_tuples_from_points (body ++ rest)
  = gen_cubic_bezier_tuples_from_points body.
Proof.
  intros Hbody Hrest. unfold gen_cubic_bezier_tuples_from_points.
  assert (Hrem : length (body ++ rest) mod nppcc = length rest).
  { rewrite length_app. rewrite Nat.Div0.add_mod, Hbody, Nat.add_0_l.
    rewrite Nat.Div0.mod_mod. now apply Nat.mod_small. }
  rewrite Hrem, Hbody, Nat.sub_0_r, slice_all.
  replace (length (body ++ rest) - length rest) with (length body)
    by (rewrite length_app; lia).
  now rewrite slice_prefix, slice_all by lia.
Qed.

Lemma insert_point_list_ignores_remainder (n : nat) (body rest : list Point) :
  nppcc <= length body -> length body mod nppcc = 0 -> length rest < nppcc ->
  insert_n_curves_to_point_list n (body ++ rest)
  = insert_n_curves_to_point_list n body.
Proof.
  intros Hge Hbody Hrest. unfold nppcc in Hge.
  rewrite !insert_point_list_unfold by (rewrite ?length_app; lia).
  unfold get_cubic_bezier_tuples_from_points.
  rewrite tuples_ignore_remainder by trivial.
  replace (length (body ++ rest) / nppcc) with (length body / nppcc); [reflexivity|].
  rewrite <- !tuples_length. now rewrite tuples_ignore_remainder.
Qed.

Lemma last_item_app {A : Type} (l : list A) (a : A) : Np.last_item (l ++ [a]) = Ok a.
Proof.
  unfold Np.last_item, Np.index.
  rewrite length_app. cbn [length Z.ltb Z.compare].
  replace (Z.to_nat (-1 + Z.of_nat (length l + 1))) with (length l) by lia.
  destruct (Z.leb_spec 0 (-1 + Z.of_nat (length l + 1))); [|lia].
  destruct (Z.ltb_spec (-1 + Z.of_nat (length l + 1)) (Z.of_nat (length l + 1))); [|lia].
  cbn [andb]. rewrite nth_error_app2, Nat.sub_diag by lia. reflexivity.
Qed.

Lemma last_item_nil {A : Type} : Np.last_item (@nil A) = Raise IndexError.
Proof. reflexivity. Qed.

(** C3, as the code has it.  Inserting [n] curves into a single-point list
    gives [n] copies of the degenerate curve on that point: [4 * n] points,
    all equal to it. *)
Theorem insert_n_curves_to_point_list_single_point (n : nat) (p : Point) :
  insert_n_curves_to_point_list n [p] = repeat p (4 * n).
Proof. apply insert_point_list_single. Qed.

(** C3 as stated fails: with [n = 0] the result is empty, not one copy of
    the point-curve. *)
Lemma insert_n_curves_to_point_list_single_point_counterexample :
  insert_n_curves_to_point_list 0 [Vec.ORIGIN] = [] /\
  insert_n_curves_to_point_list 0 [Vec.ORIGIN] <> repeat Vec.ORIGIN (4 * (0 + 1)).
Proof.
  rewrite insert_point_list_single. split; [reflexivity|discriminate].
Qed.

(** C10.  On a buffer of [c >= 1] complete curves followed by the point
    [p] of a path just opened, [insert_n_curves n] returns normally, leaves
    the subdivision of the complete curves followed by [p]: [4 * (c + n) + 1]
    points, the last of which is [p]. *)
Theorem insert_n_curves_keeps_new_path_point
        (c n : nat) (self : VMobject) (body : list Point) (p : Point) :
  1 <= c ->
  length body = 4 * c ->
  points self = body ++ [p] ->
  insert_n_curves n self
  = (Ok tt, with_points self (insert_n_curves_to_point_list n body ++ [p])) /\
  length (insert_n_curves_to_point_list n body ++ [p]) = 4 * (c + n) + 1 /\
  get_last_point (with_points self (insert_n_curves_to_point_list n body ++ [p]))
  = Ok p.
Proof.
  intros Hc Hlen Hpts.
  assert (Hmod : length body mod nppcc = 0).
  { rewrite Hlen. unfold nppcc. rewrite Nat.mul_comm. apply Nat.Div0.mod_mul. }
  assert (Hdiv : length body / nppcc = c).
  { rewrite Hlen. unfold nppcc. rewrite Nat.mul_comm. apply Nat.div_mul. lia. }
  repeat split.
  - unfold insert_n_curves, bind, gets, lift, ret, set_points, append_points, modify.
    assert (Hstarted : has_new_path_started self = true).
    { unfold has_new_path_started. rewrite Hpts, length_app.
      rewrite Nat.Div0.add_mod, Hmod. reflexivity. }
    rewrite Hstarted.
    unfold get_last_point, get_points. rewrite Hpts, last_item_app.
    unfold with_points. cbn [points tolerance_for_point_equality style].
    rewrite Hpts, insert_point_list_ignores_remainder
      by (trivial; unfold nppcc; simpl; lia).
    reflexivity.
  - rewrite length_app, insert_point_list_length by (unfold nppcc; lia).
    rewrite Hdiv. unfold nppcc. simpl. lia.
  - unfold get_last_point, with_points. cbn [points]. apply last_item_app.
Qed.

(** ** Building a path *)

Section Building.

Context {C : Collaborators}.

Lemma nonempty_last (pts : list Point) :
  pts <> [] -> exists body p, pts = body ++ [p].
Proof.
  intros H. destruct (exists_last H) as (body & p & E). now exists body, p.
Qed.

Lemma has_no_points_false (self : VMobject) (body : list Point) (p : Point) :
  points self = body ++ [p] -> has_no_points self = false.
Proof.
  intros E. unfold has_no_points, get_num_points.
  rewrite E, length_app. apply Nat.eqb_neq. simpl. lia.
Qed.

Lemma get_last_point_app (self : VMobject) (body : list Point) (p : Point) :
  points self = body ++ [p] -> get_last_point self = Ok p.
Proof. intros E. unfold get_last_point. rewrite E. apply last_item_app. Qed.

Lemma add_cubic_bezier_curve_to_empty (self : VMobject) (h1 h2 a : Point) :
  points self = [] ->
  exists msg, add_cubic_bezier_curve_to h1 h2 a self = (Raise (Exception msg), self).
Proof.
  intros E. eexists.
  unfold add_cubic_bezier_curve_to, throw_error_if_no_points, bind, gets, raise.
  unfold has_no_points, get_num_points. rewrite E. reflexivity.
Qed.

Lemma add_cubic_bezier_curve_to_nonempty
      (self : VMobject) (body : list Point) (p h1 h2 a : Point) :
  points self = body ++ [p] ->
  add_cubic_bezier_curve_to h1 h2 a self
  = (Ok tt, with_points self
              (points self ++ if has_new_path_started self
                              then [h1; h2; a] else [p; h1; h2; a])).
Proof.
  intros E.
  unfold add_cubic_bezier_curve_to, throw_error_if_no_points, bind, gets, raise, ret.
  rewrite (@has_no_points_false self body p E).
  destruct (has_new_path_started self).
  - reflexivity.
  - unfold lift. now rewrite (@get_last_point_app self body p E).
Qed.

Lemma add_line_to_nonempty (self : VMobject) (body : list Point) (p q : Point) :
  points self = body ++ [p] ->
  add_line_to q self
  = (Ok tt, with_points self
              (points self ++ if has_new_path_started self
                              then line_points p q else p :: line_points p q)).
Proof.
  intros E.
  unfold add_line_to, bind at 1.
  assert (Hargs : mapM (fun a => last_point <- bind (gets get_last_point) lift ;;
                                 ret (Bezier.interpolate last_point q a))
                       (tl (Np.linspace 0 1 nppcc)) self
                  = (Ok (line_points p q), self)).
  { unfold line_points, Np.linspace, nppcc. cbn [seq map tl mapM].
    unfold bind, gets, lift, ret.
    pose proof (@get_last_point_app self body p E) as Hlast.
    repeat (rewrite Hlast; cbv beta iota). reflexivity. }
  rewrite Hargs. unfold line_points, Np.linspace, nppcc. cbn [seq map tl].
  now rewrite (@add_cubic_bezier_curve_to_nonempty self body p _ _ _ E).
Qed.

Lemma last_two (pts : list Point) :
  2 <= length pts ->
  exists body h a,
    pts = body ++ [h; a] /\
    Np.zslice pts (-2) (Z.of_nat (length pts)) = [h; a].
Proof.
  intros H.
  destruct (@nonempty_last pts) as (body1 & a & E1).
  { intros ->. simpl in H. lia. }
  destruct (@nonempty_last body1) as (body & h & E2).
  { intros ->. subst pts. simpl in H. lia. }
  subst body1. rewrite <- app_assoc in E1. simpl in E1.
  exists body, h, a. split; [exact E1|].
  unfold Np.zslice, Np.clamp, Np.slice.
  cbn [Z.ltb Z.compare].
  destruct (Z.ltb_spec (Z.of_nat (length pts)) 0); [lia|].
  replace (Z.to_nat (Z.min (Z.of_nat (length pts)) (Z.of_nat (length pts))))
    with (length pts) by lia.
  replace (Z.to_nat (Z.max 0 (-2 + Z.of_nat (length pts)))) with (length pts - 2)
    by lia.
  replace (length pts - (length pts - 2)) with 2 by lia.
  subst pts. rewrite length_app. cbn [length].
  replace (length body + 2 - 2) with (length body + 0) by lia.
  rewrite skipn_app, Nat.add_0_r, skipn_all, Nat.sub_diag. reflexivity.
Qed.

End Building.

(** ** Errors of the curve-extension methods *)

Section Errors.

Context {C : Collaborators}.

Lemma add_smooth_curve_to_arity (self : VMobject) (pts : list Point) :
  length pts <> 1 -> length pts <> 2 ->
  exists msg, add_smooth_curve_to pts self = (Raise (Exception msg), self).
Proof.
  intros H1 H2. eexists.
  destruct pts as [|a [|b [|c pts]]]; simpl in H1, H2; try lia; reflexivity.
Qed.

Lemma add_smooth_curve_to_empty (self : VMobject) (pts : list Point) :
  length pts = 1 \/ length pts = 2 ->
  points self = [] ->
  exists msg, add_smooth_curve_to pts self = (Raise (Exception msg), self).
Proof.
  intros Hlen E. eexists.
  assert (Hstarted : has_new_path_started self = false).
  { unfold has_new_path_started. now rewrite E. }
  assert (Hnone : has_no_points self = true).
  { unfold has_no_points, get_num_points. now rewrite E. }
  destruct pts as [|a [|b [|c pts]]]; simpl in Hlen; try lia;
    unfold add_smooth_curve_to, throw_error_if_no_points, bind, gets, ret, raise;
    rewrite Hstarted, Hnone; reflexivity.
Qed.

Lemma add_smooth_curve_to_nonempty (self : VMobject) (pts : list Point) :
  length pts = 1 \/ length pts = 2 ->
  points self <> [] ->
  exists extra,
    add_smooth_curve_to pts self = (Ok tt, with_points self (points self ++ extra)) /\
    length extra = if has_new_path_started self then 3 else 4.
Proof.
  intros Hlen Hne.
  destruct (nonempty_last Hne) as (body & p & E).
  pose proof (@has_no_points_false self body p E) as Hsome.
  destruct (has_new_path_started self) eqn:Hstarted.
  - destruct pts as [|a [|b [|c pts]]]; simpl in Hlen; try lia;
      unfold add_smooth_curve_to, bind at 1 2, ret at 1, gets at 1;
      rewrite Hstarted, (@add_line_to_nonempty self body p _ E), Hstarted;
      eexists; split; reflexivity.
  - assert (Hlen2 : 2 <= length (points self)).
    { unfold has_new_path_started in Hstarted. apply Nat.eqb_neq in Hstarted.
      rewrite E, length_app in *. cbn [length] in *.
      destruct (length body); [exfalso; apply Hstarted; reflexivity | lia]. }
    destruct (@last_two _ Hlen2) as (body' & h & a' & _ & Htail).
    destruct pts as [|a [|b [|c pts]]]; simpl in Hlen; try lia;
      unfold add_smooth_curve_to, throw_error_if_no_points, bind, gets, ret;
      rewrite Hstarted, Hsome, Htail; eexists; split; reflexivity.
Qed.

(** C7.  [add_smooth_curve_to] raises exactly when it is given a number of
    points other than one or two or the buffer is empty, and
    [add_cubic_bezier_curve_to] exactly when the buffer is empty; whenever
    either raises, the mobject is left as it was. *)
Theorem curve_extension_raises_before_mutation :
  (forall self pts,
      raises (add_smooth_curve_to pts) self <->
      (length pts <> 1 /\ length pts <> 2) \/ points self = []) /\
  (forall self handle1 handle2 anchor,
      raises (add_cubic_bezier_curve_to handle1 handle2 anchor) self <->
      points self = []) /\
  (forall self pts e,
      fst (add_smooth_curve_to pts self) = Raise e ->
      snd (add_smooth_curve_to pts self) = self) /\
  (forall self handle1 handle2 anchor e,
      fst (add_cubic_bezier_curve_to handle1 handle2 anchor self) = Raise e ->
      snd (add_cubic_bezier_curve_to handle1 handle2 anchor self) = self).
Proof.
  assert (Hsmooth : forall self pts,
             (((length pts <> 1 /\ length pts <> 2) \/ points self = []) /\
              exists msg, add_smooth_curve_to pts self = (Raise (Exception msg), self))
             \/
             (((length pts = 1 \/ length pts = 2) /\ points self <> []) /\
              exists self', add_smooth_curve_to pts self = (Ok tt, self'))).
  { intros self pts.
    destruct (Nat.eq_dec (length pts) 1) as [H1|H1];
      destruct (Nat.eq_dec (length pts) 2) as [H2|H2];
      try (left; split; [left; split; assumption
                        | now apply add_smooth_curve_to_arity]);
      (destruct (points self) eqn:E;
       [ left; split; [now right | apply add_smooth_curve_to_empty; tauto]
       | right; split; [split; [tauto | discriminate]
                       | destruct (@add_smooth_curve_to_nonempty self pts)
                           as (extra & Hrun & _);
                         [tauto | rewrite E; discriminate
                         | eexists; exact Hrun]]]). }
  assert (Hcubic : forall self handle1 handle2 anchor,
             (points self = [] /\
              exists msg, add_cubic_bezier_curve_to handle1 handle2 anchor self
                          = (Raise (Exception msg), self))
             \/
             (points self <> [] /\
              exists self', add_cubic_bezier_curve_to handle1 handle2 anchor self
                            = (Ok tt, self'))).
  { intros self handle1 handle2 anchor.
    destruct (points self) eqn:E.
    - left. split; [reflexivity|]. now apply add_cubic_bezier_curve_to_empty.
    - right. split; [discriminate|].
      destruct (@nonempty_last (points self)) as (body & p' & E').
      { rewrite E. discriminate. }
      eexists. apply (@add_cubic_bezier_curve_to_nonempty self body p' _ _ _ E'). }
  repeat split.
  - intros [e He].
    destruct (Hsmooth self pts) as [[Hcase _] | [_ [self' Hrun]]]; [exact Hcase|].
    rewrite Hrun in He. discriminate.
  - intros Hcase.
    destruct (Hsmooth self pts) as [[_ [msg Hrun]] | [[Hlen Hne] _]].
    + eexists. rewrite Hrun. reflexivity.
    + exfalso. destruct Hcase as [[H1 H2] | Hempty]; [lia | contradiction].
  - intros [e He].
    destruct (Hcubic self handle1 handle2 anchor) as [[Hcase _] | [_ [self' Hrun]]];
      [exact Hcase|].
    rewrite Hrun in He. discriminate.
  - intros Hempty.
    destruct (Hcubic self handle1 handle2 anchor) as [[_ [msg Hrun]] | [Hne _]].
    + eexists. rewrite Hrun. reflexivity.
    + contradiction.
  - intros self pts e He.
    destruct (Hsmooth self pts) as [[_ [msg Hrun]] | [_ [self' Hrun]]];
      rewrite Hrun in *; [reflexivity | discriminate].
  - intros self handle1 handle2 anchor e He.
    destruct (Hcubic self handle1 handle2 anchor) as [[_ [msg Hrun]] | [_ [self' Hrun]]];
      rewrite Hrun in *; [reflexivity | discriminate].
Qed.

End Errors.

(** ** Partial curves *)

Section Partial.

Local Open Scope Qc_scope.

Lemma leb_le (x y : Qc) : x <= y -> Scalar.leb x y = true.
Proof. intros H. unfold Scalar.leb. now apply Qle_bool_iff. Qed.

Lemma interpolate_0 (p q : Point) : Bezier.interpolate p q 0 = p.
Proof.
  destruct p, q. unfold Bezier.interpolate, Vec.add, Vec.scale. simpl.
  f_equal; ring.
Qed.

Lemma interpolate_1 (p q : Point) : Bezier.interpolate p q 1 = q.
Proof.
  destruct p, q. unfold Bezier.interpolate, Vec.add, Vec.scale. simpl.
  f_equal; ring.
Qed.

Lemma partial_bezier_points_whole (a1 h1 h2 a2 : Point) :
  Bezier.partial_bezier_points [a1; h1; h2; a2] 0 1 = [a1; h1; h2; a2].
Proof.
  unfold Bezier.partial_bezier_points.
  replace (0 / 1) with 0 by (apply Qc_is_canon; reflexivity).
  cbn [length Bezier.trim_upper Bezier.trim_lower Bezier.casteljau_row last app].
  now rewrite !interpolate_1, !interpolate_0.
Qed.

Lemma partial_bezier_points_start (a1 h1 h2 a2 : Point) :
  Bezier.partial_bezier_points [a1; h1; h2; a2] 0 0 = repeat a1 nppcc.
Proof.
  unfold Bezier.partial_bezier_points.
  replace (0 / 0) with 0 by (apply Qc_is_canon; reflexivity).
  cbn [length Bezier.trim_upper Bezier.trim_lower Bezier.casteljau_row last app].
  now rewrite !interpolate_0.
Qed.

Lemma integer_interpolate_third :
  Bezier.integer_interpolate 0 3 (Scalar.frac 1 3) = (1%Z, 0).
Proof.
  unfold Bezier.integer_interpolate.
  f_equal; apply Qc_is_canon; reflexivity.
Qed.

Lemma integer_interpolate_zero :
  Bezier.integer_interpolate 0 3 0 = (0%Z, 0).
Proof.
  unfold Bezier.integer_interpolate.
  f_equal; apply Qc_is_canon; reflexivity.
Qed.

(** What [pointwise_become_partial] leaves on the first third of three
    curves: the first curve, then the start of the second one. *)
Lemma pointwise_become_partial_third
      (self vmobject : VMobject) (a1 h1 h2 a2 b1 g1 g2 b2 : Point)
      (quad2 rest : list Point) :
  length quad2 = 4%nat -> (length rest < 4)%nat ->
  points vmobject = [a1; h1; h2; a2] ++ [b1; g1; g2; b2] ++ quad2 ++ rest ->
  pointwise_become_partial vmobject 0 (Scalar.frac 1 3) self
  = (Ok tt, with_points self ([a1; h1; h2; a2] ++ repeat b1 nppcc)).
Proof.
  intros Hq2 Hrest Hpts.
  destruct quad2 as [|c1 [|k1 [|k2 [|c2 [|x quad2]]]]]; try discriminate.
  assert (Hquads : get_cubic_bezier_tuples vmobject
                   = [[a1; h1; h2; a2]; [b1; g1; g2; b2]; [c1; k1; k2; c2]]).
  { unfold get_cubic_bezier_tuples, get_cubic_bezier_tuples_from_points, get_points.
    rewrite Hpts.
    change ([a1; h1; h2; a2] ++ [b1; g1; g2; b2] ++ [c1; k1; k2; c2] ++ rest)
      with ([a1; h1; h2; a2; b1; g1; g2; b2; c1; k1; k2; c2] ++ rest).
    rewrite tuples_ignore_remainder by (trivial; reflexivity).
    reflexivity. }
  unfold pointwise_become_partial.
  replace (Scalar.leb 0 0 && Scalar.leb 1 (Scalar.frac 1 3))%bool with false
    by reflexivity.
  rewrite Hquads. cbn [length Z.of_nat Pos.of_succ_nat Pos.succ].
  rewrite integer_interpolate_zero, integer_interpolate_third.
  cbn [Nat.eqb Z.eqb Z.add].
  change (Np.index [[a1; h1; h2; a2]; [b1; g1; g2; b2]; [c1; k1; k2; c2]] 0)
    with (Ok [a1; h1; h2; a2]).
  change (Np.index [[a1; h1; h2; a2]; [b1; g1; g2; b2]; [c1; k1; k2; c2]] 1)
    with (Ok [b1; g1; g2; b2]).
  change (Np.zslice [[a1; h1; h2; a2]; [b1; g1; g2; b2]; [c1; k1; k2; c2]] 1 1)
    with (@nil (list Point)).
  unfold bind, clear_points, append_points, modify, lift.
  cbn [forM_]. unfold ret. cbv beta iota.
  rewrite partial_bezier_points_whole, partial_bezier_points_start.
  reflexivity.
Qed.

(** C4, as the code has it.  For a source of exactly three complete
    curves, [pointwise_become_partial source 0 (1/3)] leaves the first
    curve followed by a degenerate curve, four copies of the first anchor
    of the second curve: the upper bound falls on index 1 with residue 0,
    and the portion of curve 1 up to that residue is appended. *)
Theorem pointwise_become_partial_first_third
        (self vmobject : VMobject) (a1 h1 h2 a2 b1 g1 g2 b2 : Point)
        (quad2 rest : list Point) :
  length quad2 = 4%nat -> (length rest < 4)%nat ->
  points vmobject = [a1; h1; h2; a2] ++ [b1; g1; g2; b2] ++ quad2 ++ rest ->
  pointwise_become_partial vmobject 0 (Scalar.frac 1 3) self
  = (Ok tt, with_points self [a1; h1; h2; a2; b1; b1; b1; b1]).
Proof. apply pointwise_become_partial_third. Qed.

(** C5.  With [a <= 0] and [b >= 1], [pointwise_become_partial] sets the
    point buffer to the source's buffer, whatever the source holds. *)
Theorem pointwise_become_partial_full_range (self vmobject : VMobject) (a b : Qc) :
  a <= 0 -> 1 <= b ->
  pointwise_become_partial vmobject a b self
  = (Ok tt, with_points self (points vmobject)).
Proof.
  intros Ha Hb. unfold pointwise_become_partial.
  now rewrite (leb_le Ha), (leb_le Hb).
Qed.

End Partial.

(** C4 as stated fails: on three curves along the axis the result holds
    eight points, the first curve and four copies of the point that opens
    the second one, not the first four points alone. *)
Lemma pointwise_become_partial_first_third_counterexample :
  pointwise_become_partial (sample three_curves) (Q2Qc 0) (Scalar.frac 1 3) (sample [])
  <> (Ok tt, with_points (sample []) (Np.slice three_curves 0 4)).
Proof.
  rewrite (@pointwise_become_partial_third (sample []) (sample three_curves)
             (on_axis 0) (on_axis 1) (on_axis 2) (on_axis 3)
             (on_axis 3) (on_axis 4) (on_axis 5) (on_axis 6)
             (map on_axis [6; 7; 8; 9]%Z) [] eq_refl (le_S _ _ (le_S _ _ (le_S _ _ (le_n 1))))
             eq_refl).
  intros H.
  apply (f_equal (fun r => length (points (snd r)))) in H.
  discriminate H.
Qed.

Lemma pointwise_become_partial_first_third_witness :
  length (map on_axis [6; 7; 8; 9]%Z) = 4 /\
  length (@nil Point) < 4 /\
  points (sample three_curves)
  = [on_axis 0; on_axis 1; on_axis 2; on_axis 3]
      ++ [on_axis 3; on_axis 4; on_axis 5; on_axis 6]
      ++ map on_axis [6; 7; 8; 9]%Z ++ [] /\
  pointwise_become_partial (sample three_curves) (Q2Qc 0) (Scalar.frac 1 3) (sample [])
  = (Ok tt, with_points (sample [])
              [on_axis 0; on_axis 1; on_axis 2; on_axis 3;
               on_axis 3; on_axis 3; on_axis 3; on_axis 3]).
Proof.
  split; [reflexivity|]. split; [simpl; lia|]. split; [reflexivity|].
  apply (@pointwise_become_partial_first_third (sample []) (sample three_curves)
           (on_axis 0) (on_axis 1) (on_axis 2) (on_axis 3)
           (on_axis 3) (on_axis 4) (on_axis 5) (on_axis 6)
           (map on_axis [6; 7; 8; 9]%Z) []);
    [reflexivity | simpl; lia | reflexivity].
Defined.

Lemma pointwise_become_partial_full_range_witness :
  (Q2Qc 0 <= Q2Qc 0)%Qc /\ (Q2Qc 1 <= Q2Qc 1)%Qc /\
  pointwise_become_partial (sample three_curves) (Q2Qc 0) (Q2Qc 1) (sample [])
  = (Ok tt, with_points (sample []) (points (sample three_curves))).
Proof.
  split; [apply Qcle_refl|]. split; [apply Qcle_refl|].
  apply pointwise_become_partial_full_range; apply Qcle_refl.
Defined.


Lemma insert_n_curves_keeps_new_path_point_witness :
  1 <= 3 /\ length three_curves = 4 * 3 /\
  points (sample (three_curves ++ [on_axis 20])) = three_curves ++ [on_axis 20] /\
  get_last_point (with_points (sample (three_curves ++ [on_axis 20]))
                              (insert_n_curves_to_point_list 2 three_curves
                                 ++ [on_axis 20]))
  = Ok (on_axis 20).
Proof.
  split; [lia|]. split; [reflexivity|]. split; [reflexivity|].
  apply (@insert_n_curves_keeps_new_path_point 3 2
           (sample (three_curves ++ [on_axis 20])) three_curves (on_axis 20));
    [lia | reflexivity | reflexivity].
Defined.

(** ** Style interpolation *)

Section Style.

Context {C : Collaborators}.


End Style.

(** ** Subpaths *)

Section Subpaths.

Variable pts : list Point.

Let run (b : nat * nat) : list Point := let '(i1, i2) := b in Np.slice pts i1 i2.

Let long_enough (b : nat * nat) : bool :=
  let '(i1, i2) := b in (Z.of_nat nppcc <=? Z.of_nat i2 - Z.of_nat i1)%Z.

Lemma gapped_range_filter (f : nat -> bool) (cnt a lo : nat) :
  lo <= a * nppcc ->
  gapped lo (filter f (map (fun k => nppcc + k * nppcc) (seq a cnt))).
Proof.
  revert a lo. induction cnt as [|cnt IH]; intros a lo Hlo; [exact I|].
  cbn [seq map filter].
  destruct (f (nppcc + a * nppcc)).
  - split; [lia|]. apply IH. unfold nppcc. lia.
  - apply IH. unfold nppcc in *. lia.
Qed.

Lemma last_cons (x d : nat) (l : list nat) : last (x :: l) d = last l x.
Proof.
  revert x d. induction l as [|y l IH]; intros x d; [reflexivity|].
  change (last (x :: y :: l) d) with (last (y :: l) d).
  now rewrite !IH.
Qed.

Lemma gapped_last (lo : nat) (l : list nat) : gapped lo l -> lo <= last l lo.
Proof.
  revert lo. induction l as [|x l IH]; intros lo H; [simpl; lia|].
  destruct H as [Hx Hl]. specialize (IH x Hl).
  rewrite last_cons. lia.
Qed.

Lemma last_Forall (P : nat -> Prop) (d : nat) (l : list nat) :
  P d -> Forall P l -> P (last l d).
Proof.
  intros Hd Hl. induction Hl as [|x l Hx _ IH]; [exact Hd|].
  destruct l; [exact Hx | exact IH].
Qed.

Lemma adjacent_snoc (lo x : nat) (l : list nat) :
  Np.adjacent (lo :: l ++ [x]) = Np.adjacent (lo :: l) ++ [(last l lo, x)].
Proof.
  revert lo. induction l as [|y l IH]; intros lo; [reflexivity|].
  change (Np.adjacent (lo :: (y :: l) ++ [x]))
    with ((lo, y) :: Np.adjacent (y :: l ++ [x])).
  rewrite IH.
  change (Np.adjacent (lo :: y :: l)) with ((lo, y) :: Np.adjacent (y :: l)).
  now rewrite last_cons.
Qed.

Lemma gapped_all_kept (lo : nat) (l : list nat) :
  gapped lo l -> filter long_enough (Np.adjacent (lo :: l)) = Np.adjacent (lo :: l).
Proof.
  revert lo. induction l as [|x l IH]; intros lo H; [reflexivity|].
  destruct H as [Hx Hl].
  change (Np.adjacent (lo :: x :: l)) with ((lo, x) :: Np.adjacent (x :: l)).
  cbn [filter long_enough].
  destruct (Z.leb_spec (Z.of_nat nppcc) (Z.of_nat x - Z.of_nat lo)); [|lia].
  now rewrite IH.
Qed.

Lemma gapped_concat (lo : nat) (l : list nat) :
  gapped lo l ->
  concat (map run (Np.adjacent (lo :: l))) = Np.slice pts lo (last l lo).
Proof.
  revert lo. induction l as [|x l IH]; intros lo H.
  - cbn. unfold Np.slice. now rewrite Nat.sub_diag.
  - destruct H as [Hx Hl].
    change (Np.adjacent (lo :: x :: l)) with ((lo, x) :: Np.adjacent (x :: l)).
    cbn [map concat run]. rewrite (IH x Hl).
    pose proof (gapped_last _ _ Hl) as Hlast.
    rewrite slice_app by lia.
    now rewrite last_cons.
Qed.

Lemma gapped_runs_long (lo : nat) (l : list nat) :
  gapped lo l -> Forall (fun x => x <= length pts) l ->
  Forall (fun r => nppcc <= length r) (map run (Np.adjacent (lo :: l))).
Proof.
  revert lo. induction l as [|x l IH]; intros lo H Hb; [constructor|].
  destruct H as [Hx Hl]. inversion Hb as [|? ? Hxb Hlb]; subst.
  change (Np.adjacent (lo :: x :: l)) with ((lo, x) :: Np.adjacent (x :: l)).
  cbn [map]. constructor; [|now apply IH].
  cbn [run]. rewrite slice_length. lia.
Qed.

Variable self : VMobject.

Lemma split_indices_In (n : nat) :
  In n (split_indices self pts) <->
  0 < n < length pts /\ n mod nppcc = 0 /\
  consider_points_equals self (point_at pts (n - 1)) (point_at pts n) = false.
Proof.
  unfold split_indices. rewrite filter_In, range_In by (unfold nppcc; lia).
  rewrite negb_true_iff. unfold nppcc. split.
  - intros [[[Hlo Hhi] Hmod] Hne]. repeat split; try lia; [|exact Hne].
    pose proof (Nat.div_mod_eq (n - 4) 4) as E. rewrite Hmod in E.
    replace n with (0 + (1 + (n - 4) / 4) * 4) by lia.
    apply Nat.Div0.mod_add.
  - intros [[Hlo Hhi] [Hmod Hne]].
    pose proof (Nat.div_mod_eq n 4) as E. rewrite Hmod in E.
    repeat split; try lia; [|exact Hne].
    replace (n - 4) with (0 + (n / 4 - 1) * 4) by lia.
    apply Nat.Div0.mod_add.
Qed.

Lemma split_indices_gapped : gapped 0 (split_indices self pts).
Proof. unfold split_indices, Np.range. apply gapped_range_filter. lia. Qed.

Lemma split_indices_bound : Forall (fun x => x <= length pts) (split_indices self pts).
Proof.
  apply Forall_forall. intros n Hn. apply split_indices_In in Hn. lia.
Qed.

Lemma subpaths_unfold :
  get_subpaths_from_points self pts
  = map run (Np.adjacent (0 :: split_indices self pts))
    ++ (if nppcc <=? length pts - last (split_indices self pts) 0
        then [Np.slice pts (last (split_indices self pts) 0) (length pts)]
        else []).
Proof.
  unfold get_subpaths_from_points, _gen_subpaths_from_points.
  fold (split_indices self pts).
  change (fun '(i1, i2) => Np.slice pts i1 i2) with run.
  change (fun '(i1, i2) => (Z.of_nat nppcc <=? Z.of_nat i2 - Z.of_nat i1)%Z)
    with long_enough.
  change ([0] ++ split_indices self pts ++ [length pts])
    with (0 :: split_indices self pts ++ [length pts]).
  rewrite adjacent_snoc, filter_app, map_app.
  rewrite gapped_all_kept by apply split_indices_gapped.
  f_equal. cbn [filter long_enough].
  destruct (Z.leb_spec (Z.of_nat nppcc)
              (Z.of_nat (length pts) - Z.of_nat (last (split_indices self pts) 0)));
    destruct (Nat.leb_spec nppcc (length pts - last (split_indices self pts) 0));
    try reflexivity; unfold nppcc in *; lia.
Qed.


Lemma subpaths_concat :
  exists rest,
    concat (get_subpaths_from_points self pts) ++ rest = pts /\ length rest < nppcc.
Proof.
  rewrite subpaths_unfold, concat_app.
  rewrite gapped_concat by apply split_indices_gapped.
  assert (Hlast : last (split_indices self pts) 0 <= length pts).
  { apply last_Forall; [lia | apply split_indices_bound]. }
  destruct (Nat.leb_spec nppcc (length pts - last (split_indices self pts) 0)).
  - exists []. cbn [concat]. rewrite !app_nil_r.
    rewrite slice_app by lia. split; [apply slice_all | cbn [length]; unfold nppcc; lia].
  - exists (Np.slice pts (last (split_indices self pts) 0) (length pts)).
    cbn [concat]. rewrite app_nil_r, slice_app by lia.
    split; [apply slice_all | rewrite slice_length; unfold nppcc in *; lia].
Qed.

End Subpaths.


(** ** The length invariant *)

Section Invariant.

Context {C : Collaborators}.

Lemma extend_invariant (pts extra : list Point) :
  length_invariant pts ->
  length extra = (if length pts mod nppcc =? 1 then 3 else 4) ->
  length (pts ++ extra) mod nppcc = 0 /\ nppcc <= length (pts ++ extra).
Proof.
  unfold length_invariant, nppcc. intros Hinv Hextra. rewrite length_app.
  destruct (Nat.eqb_spec (length pts mod 4) 1) as [E|E]; rewrite Hextra.
  - pose proof (Nat.div_mod_eq (length pts) 4) as D. rewrite E in D.
    replace (length pts + 3) with (0 + (length pts / 4 + 1) * 4) by lia.
    rewrite Nat.Div0.mod_add. split; [reflexivity | lia].
  - destruct Hinv as [Hinv|Hinv]; [|contradiction].
    pose proof (Nat.div_mod_eq (length pts) 4) as D. rewrite Hinv in D.
    replace (length pts + 4) with (0 + (length pts / 4 + 1) * 4) by lia.
    rewrite Nat.Div0.mod_add. split; [reflexivity | lia].
Qed.

Lemma empty_or_last (pts : list Point) :
  pts = [] \/ exists body p, pts = body ++ [p].
Proof.
  destruct pts as [|x pts]; [now left|right].
  apply nonempty_last. discriminate.
Qed.

Lemma whole_is_invariant (pts : list Point) :
  length pts mod nppcc = 0 -> length_invariant pts.
Proof. intros H. now left. Qed.

Lemma add_line_to_empty (self : VMobject) (q : Point) :
  points self = [] -> add_line_to q self = (Raise IndexError, self).
Proof.
  intros E. unfold add_line_to, bind at 1.
  unfold Np.linspace, nppcc. cbn [seq map tl mapM].
  unfold bind, gets, lift, get_last_point. now rewrite E.
Qed.

Lemma add_line_to_invariant (self : VMobject) (q : Point) :
  length_invariant (points self) ->
  length_invariant (points (snd (add_line_to q self))).
Proof.
  intros Hinv. destruct (empty_or_last (points self)) as [E | (body & p' & E')].
  - rewrite add_line_to_empty by exact E. exact Hinv.
  - rewrite (@add_line_to_nonempty self body p' q E'). cbn [snd with_points points].
    apply whole_is_invariant, extend_invariant; [exact Hinv|].
    unfold has_new_path_started. now destruct (length (points self) mod nppcc =? 1).
Qed.

Lemma add_cubic_bezier_curve_to_invariant (self : VMobject) (h1 h2 a : Point) :
  length_invariant (points self) ->
  length_invariant (points (snd (add_cubic_bezier_curve_to h1 h2 a self))).
Proof.
  intros Hinv. destruct (empty_or_last (points self)) as [E | (body & p' & E')].
  - destruct (@add_cubic_bezier_curve_to_empty self h1 h2 a E) as [msg ->].
    exact Hinv.
  - rewrite (@add_cubic_bezier_curve_to_nonempty self body p' h1 h2 a E').
    cbn [snd with_points points].
    apply whole_is_invariant, extend_invariant; [exact Hinv|].
    unfold has_new_path_started. now destruct (length (points self) mod nppcc =? 1).
Qed.

Lemma add_smooth_curve_to_invariant (self : VMobject) (pts : list Point) :
  length_invariant (points self) ->
  length_invariant (points (snd (add_smooth_curve_to pts self))).
Proof.
  intros Hinv.
  destruct (Nat.eq_dec (length pts) 1) as [H1|H1];
    destruct (Nat.eq_dec (length pts) 2) as [H2|H2];
    try (destruct (@add_smooth_curve_to_arity C self pts H1 H2) as [msg ->];
         exact Hinv);
    (destruct (empty_or_last (points self)) as [E | (body & p' & E')];
     [ destruct (@add_smooth_curve_to_empty C self pts) as [msg ->];
       [tauto | exact E | exact Hinv]
     | destruct (@add_smooth_curve_to_nonempty C self pts) as (extra & -> & Hextra);
       [tauto | rewrite E'; now destruct body |];
       cbn [snd with_points points];
       apply whole_is_invariant, extend_invariant;
       [exact Hinv | rewrite Hextra; unfold has_new_path_started; reflexivity] ]).
Qed.

Lemma started_last (self : VMobject) :
  has_new_path_started self = true ->
  exists body p, points self = body ++ [p] /\ length body mod nppcc = 0.
Proof.
  unfold has_new_path_started. intros H. apply Nat.eqb_eq in H.
  destruct (@nonempty_last (points self)) as (body & p & E).
  { intros E. rewrite E in H. discriminate. }
  exists body, p. split; [exact E|].
  rewrite E, length_app in H. cbn [length] in H. unfold nppcc in *.
  pose proof (Nat.div_mod_eq (length body + 1) 4) as D. rewrite H in D.
  replace (length body) with (0 + ((length body + 1) / 4) * 4) by lia.
  apply Nat.Div0.mod_add.
Qed.

Lemma insert_n_curves_invariant (self : VMobject) (n : nat) :
  length_invariant (points (snd (insert_n_curves n self))).
Proof.
  unfold insert_n_curves, bind at 1, gets at 1.
  destruct (has_new_path_started self) eqn:Hstarted.
  - destruct (started_last self Hstarted) as (body & p & E & _).
    unfold bind, gets, lift, ret, set_points, append_points, modify.
    rewrite (@get_last_point_app self body p E).
    cbn [snd with_points points]. right.
    rewrite length_app, Nat.Div0.add_mod, insert_point_list_mod. reflexivity.
  - unfold bind, gets, ret, set_points, modify.
    cbn [snd with_points points]. left. apply insert_point_list_mod.
Qed.

End Invariant.

(** ** Subpaths of a buffer of complete curves *)

Lemma whole_difference (i1 i2 : nat) :
  i1 mod nppcc = 0 -> i2 mod nppcc = 0 -> (i2 - i1) mod nppcc = 0.
Proof.
  unfold nppcc. intros H1 H2.
  pose proof (Nat.div_mod_eq i1 4) as D1. rewrite H1 in D1.
  pose proof (Nat.div_mod_eq i2 4) as D2. rewrite H2 in D2.
  replace (i2 - i1) with (0 + (i2 / 4 - i1 / 4) * 4) by lia.
  apply Nat.Div0.mod_add.
Qed.

Lemma gapped_runs_whole (pts : list Point) (lo : nat) (l : list nat) :
  lo mod nppcc = 0 ->
  Forall (fun x => x mod nppcc = 0 /\ x <= length pts) l ->
  gapped lo l ->
  Forall (fun r => nppcc <= length r /\ length r mod nppcc = 0)
         (map (fun b : nat * nat => let '(i1, i2) := b in Np.slice pts i1 i2)
              (Np.adjacent (lo :: l))).
Proof.
  revert lo. induction l as [|x l IH]; intros lo Hlo Hall Hgap; [constructor|].
  destruct Hgap as [Hx Hl]. inversion Hall as [|? ? [Hxm Hxb] Hrest]; subst.
  change (Np.adjacent (lo :: x :: l)) with ((lo, x) :: Np.adjacent (x :: l)).
  cbn [map]. constructor; [|now apply IH].
  rewrite slice_length.
  replace (Nat.min (x - lo) (length pts - lo)) with (x - lo) by lia.
  split; [lia | now apply whole_difference].
Qed.

Lemma concat_whole (runs : list (list Point)) :
  Forall (fun r => nppcc <= length r /\ length r mod nppcc = 0) runs ->
  length (concat runs) mod nppcc = 0.
Proof.
  induction 1 as [|r runs [_ Hr] _ IH]; [reflexivity|].
  cbn [concat]. now rewrite length_app, Nat.Div0.add_mod, Hr, IH.
Qed.

Lemma subpaths_complete (self : VMobject) (pts : list Point) :
  length pts mod nppcc = 0 -> nppcc <= length pts ->
  get_subpaths_from_points self pts <> [] /\
  Forall (fun r => nppcc <= length r /\ length r mod nppcc = 0)
         (get_subpaths_from_points self pts) /\
  concat (get_subpaths_from_points self pts) = pts.
Proof.
  intros Hmod Hlen.
  assert (Hall : Forall (fun x => x mod nppcc = 0 /\ x <= length pts)
                        (split_indices self pts)).
  { apply Forall_forall. intros n Hn. apply split_indices_In in Hn.
    unfold nppcc. split; [tauto | lia]. }
  assert (Hlast : last (split_indices self pts) 0 mod nppcc = 0 /\
                  last (split_indices self pts) 0 < length pts).
  { apply (@last_Forall (fun x => x mod nppcc = 0 /\ x < length pts)).
    - split; [reflexivity | unfold nppcc in Hlen; lia].
    - apply Forall_forall. intros n Hn. apply split_indices_In in Hn.
      unfold nppcc. split; [tauto | lia]. }
  destruct Hlast as [Hlm Hlb].
  pose proof (@whole_difference _ _ Hlm Hmod) as Hdiff.
  assert (Hkeep : nppcc <= length pts - last (split_indices self pts) 0).
  { unfold nppcc in *.
    pose proof (Nat.div_mod_eq (length pts - last (split_indices self pts) 0) 4) as D.
    rewrite Hdiff in D. lia. }
  assert (Hruns : Forall (fun r => nppcc <= length r /\ length r mod nppcc = 0)
                         (get_subpaths_from_points self pts)).
  { rewrite subpaths_unfold. apply Forall_app. split.
    - apply gapped_runs_whole; [reflexivity | exact Hall | apply split_indices_gapped].
    - destruct (Nat.leb_spec nppcc (length pts - last (split_indices self pts) 0));
        [|lia].
      constructor; [|constructor]. rewrite slice_length.
      replace (Nat.min (length pts - last (split_indices self pts) 0)
                       (length pts - last (split_indices self pts) 0))
        with (length pts - last (split_indices self pts) 0) by lia.
      split; assumption. }
  split; [|split; [exact Hruns|]].
  - rewrite subpaths_unfold.
    destruct (Nat.leb_spec nppcc (length pts - last (split_indices self pts) 0));
      [|lia].
    intros Hnil. apply app_eq_nil in Hnil. destruct Hnil as [_ Hnil]. discriminate.
  - destruct (subpaths_concat pts self) as (rest & Hcat & Hrest).
    pose proof (@concat_whole _ Hruns) as Hw.
    assert (Hnil : rest = []).
    { apply (f_equal (@length Point)) in Hcat. rewrite length_app in Hcat.
      destruct rest as [|x rest]; [reflexivity|exfalso].
      unfold nppcc in *. cbn [length] in *.
      pose proof (Nat.div_mod_eq (length pts) 4) as D1. rewrite Hmod in D1.
      pose proof (Nat.div_mod_eq (length (concat (get_subpaths_from_points self pts))) 4)
        as D2. rewrite Hw in D2. lia. }
    rewrite Hnil, app_nil_r in Hcat. exact Hcat.
Qed.

(** ** Alignment *)

Section Alignment.

Context {C : Collaborators}.

Let whole (r : list Point) : Prop := nppcc <= length r /\ length r mod nppcc = 0.

Lemma with_points_same (self : VMobject) : with_points self (points self ++ []) = self.
Proof. destruct self. unfold with_points. cbn. now rewrite app_nil_r. Qed.

Lemma complete_path_run (self : VMobject) :
  exists extra,
    complete_path self = (Ok tt, with_points self (points self ++ extra)) /\
    (length_invariant (points self) -> whole (points self ++ extra)) /\
    (length (points self) mod nppcc = 0 -> points self <> [] -> extra = []).
Proof.
  destruct (empty_or_last (points self)) as [E | (body & p & E)].
  - set (c := get_center self).
    set (s1 := with_points self (points self ++ [c])).
    assert (Hnone : has_no_points self = true).
    { unfold has_no_points, get_num_points. now rewrite E. }
    assert (Hs : has_new_path_started s1 = true).
    { unfold has_new_path_started, s1. cbn [points with_points]. now rewrite E. }
    assert (Hp : points s1 = points self ++ [c]) by reflexivity.
    pose proof (@add_line_to_nonempty s1 (points self) c c Hp) as Ha.
    rewrite Hs in Ha.
    exists (c :: line_points c c). split; [|split].
    + unfold complete_path, bind, gets, ret. rewrite Hnone.
      change (start_new_path (get_center self) self) with (Ok tt, s1).
      cbv beta iota. rewrite Hs. unfold lift.
      rewrite (@get_last_point_app s1 (points self) c Hp), Ha.
      unfold s1, with_points. cbn [points tolerance_for_point_equality style].
      now rewrite <- app_assoc.
    + intros _. rewrite E. split; [apply le_n | reflexivity].
    + intros _ Hne. contradiction.
  - pose proof (@has_no_points_false self body p E) as Hsome.
    destruct (has_new_path_started self) eqn:Hstarted.
    + exists (line_points p p). split; [|split].
      * unfold complete_path, bind, gets, ret. rewrite Hsome, Hstarted.
        unfold lift. rewrite (@get_last_point_app self body p E).
        rewrite (@add_line_to_nonempty self body p p E), Hstarted. reflexivity.
      * intros Hinv.
        destruct (@extend_invariant (points self) (line_points p p) Hinv) as [H1 H2].
        { unfold has_new_path_started in Hstarted. now rewrite Hstarted. }
        split; assumption.
      * intros Hmod _. unfold has_new_path_started in Hstarted.
        rewrite Hmod in Hstarted. discriminate.
    + exists []. split; [|split].
      * unfold complete_path, bind, gets, ret. rewrite Hsome, Hstarted.
        now rewrite with_points_same.
      * intros Hinv. rewrite app_nil_r.
        unfold has_new_path_started in Hstarted. apply Nat.eqb_neq in Hstarted.
        destruct Hinv as [Hinv|Hinv]; [|contradiction].
        split; [|exact Hinv].
        rewrite E, length_app in *. cbn [length] in *. unfold nppcc in *.
        pose proof (Nat.div_mod_eq (length body + 1) 4) as D. rewrite Hinv in D. lia.
      * reflexivity.
Qed.

Lemma align_rgbas_attr_frame (acc : result (VMobject * VMobject)) (a : attr)
      (pts1 pts2 : list Point) (tol1 tol2 : Qc) :
  (forall s v, acc = Ok (s, v) ->
               (points s = pts1 /\ tolerance_for_point_equality s = tol1) /\
               (points v = pts2 /\ tolerance_for_point_equality v = tol2)) ->
  forall s v, align_rgbas_attr acc a = Ok (s, v) ->
              (points s = pts1 /\ tolerance_for_point_equality s = tol1) /\
              (points v = pts2 /\ tolerance_for_point_equality v = tol2).
Proof.
  intros Hacc s v. unfold align_rgbas_attr.
  destruct acc as [[s0 v0]|e]; cbn [result_bind]; [|discriminate].
  specialize (Hacc s0 v0 eq_refl).
  destruct (len (getattr s0 a)) as [n1|e]; cbn [result_bind]; [|discriminate].
  destruct (len (getattr v0 a)) as [n2|e]; cbn [result_bind]; [|discriminate].
  destruct (n2 <? n1).
  - destruct (stretch (getattr v0 a) n1); cbn [result_bind]; [|discriminate].
    intros H. injection H as <- <-. exact Hacc.
  - destruct (n1 <? n2).
    + destruct (stretch (getattr s0 a) n2); cbn [result_bind]; [|discriminate].
      intros H. injection H as <- <-. exact Hacc.
    + intros H. injection H as <- <-. exact Hacc.
Qed.

Lemma align_rgbas_frame (self vmobject s v : VMobject) :
  align_rgbas self vmobject = Ok (s, v) ->
  (points s = points self /\
   tolerance_for_point_equality s = tolerance_for_point_equality self) /\
  (points v = points vmobject /\
   tolerance_for_point_equality v = tolerance_for_point_equality vmobject).
Proof.
  unfold align_rgbas. cbn [fold_left].
  apply align_rgbas_attr_frame. apply align_rgbas_attr_frame.
  apply align_rgbas_attr_frame.
  intros s0 v0 H. injection H as <- <-. repeat split.
Qed.

Lemma index_nat {A : Type} (l : list A) (n : nat) :
  n < length l ->
  exists a, Np.index l (Z.of_nat n) = Ok a /\ nth_error l n = Some a.
Proof.
  intros Hn. unfold Np.index.
  destruct (Z.ltb_spec (Z.of_nat n) 0); [lia|].
  destruct (Z.leb_spec 0 (Z.of_nat n)); [|lia].
  destruct (Z.ltb_spec (Z.of_nat n) (Z.of_nat (length l))); [|lia].
  cbn [andb]. rewrite Nat2Z.id.
  destruct (nth_error l n) as [a|] eqn:E.
  - now exists a.
  - apply nth_error_None in E. lia.
Qed.

Lemma get_nth_subpath_whole (path_list : list (list Point)) (n : nat) :
  path_list <> [] -> Forall whole path_list ->
  exists sp,
    get_nth_subpath path_list n = Ok sp /\ whole sp /\
    (n < length path_list -> nth_error path_list n = Some sp).
Proof.
  intros Hne Hall. unfold get_nth_subpath.
  destruct (Nat.leb_spec (length path_list) n) as [Hge|Hlt].
  - destruct (exists_last Hne) as (front & last_path & E).
    assert (Hlast : whole last_path).
    { rewrite Forall_forall in Hall. apply Hall. rewrite E.
      apply in_or_app. right. now left. }
    destruct (@nonempty_last last_path) as (body & p & Ep).
    { intros ->. destruct Hlast as [Hlast _]. unfold nppcc in Hlast.
      cbn [length] in Hlast. lia. }
    exists (repeat p nppcc). split; [|split].
    + rewrite E, last_item_app. cbn [result_bind].
      rewrite Ep, last_item_app. reflexivity.
    + split; [apply le_n | reflexivity].
    + lia.
  - destruct (index_nat path_list Hlt) as (sp & Hsp & Hnth).
    exists sp. split; [exact Hsp|]. split; [|intros _; exact Hnth].
    rewrite Forall_forall in Hall. apply Hall. eapply nth_error_In. exact Hnth.
Qed.

Lemma aligned_length (l1 l2 : nat) :
  l1 mod nppcc = 0 -> l2 mod nppcc = 0 ->
  nppcc * (l1 / nppcc
           + Z.to_nat (Z.max 0 ((Z.of_nat l2 - Z.of_nat l1) / Z.of_nat nppcc)))
  = Nat.max l1 l2.
Proof.
  unfold nppcc. intros H1 H2.
  pose proof (Nat.div_mod_eq l1 4) as D1. rewrite H1 in D1.
  pose proof (Nat.div_mod_eq l2 4) as D2. rewrite H2 in D2.
  replace (Z.of_nat l2 - Z.of_nat l1)%Z
    with ((Z.of_nat (l2 / 4) - Z.of_nat (l1 / 4)) * Z.of_nat 4)%Z by lia.
  rewrite Z.div_mul by lia. lia.
Qed.

Lemma align_subpaths_step (subpaths1 subpaths2 : list (list Point))
      (new_path1 new_path2 : list Point) (n : nat) :
  subpaths1 <> [] -> Forall whole subpaths1 ->
  subpaths2 <> [] -> Forall whole subpaths2 ->
  exists sp1 sp2,
    align_subpaths subpaths1 subpaths2 (Ok (new_path1, new_path2)) n
    = Ok (new_path1 ++ sp1, new_path2 ++ sp2) /\
    length sp1 = length sp2 /\ length sp1 mod nppcc = 0 /\
    (forall r1 r2, nth_error subpaths1 n = Some r1 -> nth_error subpaths2 n = Some r2 ->
                   length sp1 = Nat.max (length r1) (length r2)).
Proof.
  intros Hne1 Hall1 Hne2 Hall2.
  destruct (get_nth_subpath_whole n Hne1 Hall1) as (r1 & Hr1 & [Hl1 Hm1] & Hn1).
  destruct (get_nth_subpath_whole n Hne2 Hall2) as (r2 & Hr2 & [Hl2 Hm2] & Hn2).
  unfold align_subpaths. cbn [result_bind]. rewrite Hr1, Hr2. cbn [result_bind].
  eexists. eexists. split; [reflexivity|].
  rewrite !insert_point_list_length by assumption.
  rewrite !aligned_length by assumption.
  split; [lia|]. split.
  - destruct (Nat.max_spec (length r1) (length r2)) as [[_ ->] | [_ ->]]; assumption.
  - intros r1' r2' H1 H2.
    assert (Hlt1 : n < length subpaths1) by (apply nth_error_Some; congruence).
    assert (Hlt2 : n < length subpaths2) by (apply nth_error_Some; congruence).
    rewrite (Hn1 Hlt1) in H1. rewrite (Hn2 Hlt2) in H2.
    injection H1 as <-. injection H2 as <-. reflexivity.
Qed.

Lemma align_subpaths_fold (subpaths1 subpaths2 : list (list Point)) (ns : list nat) :
  subpaths1 <> [] -> Forall whole subpaths1 ->
  subpaths2 <> [] -> Forall whole subpaths2 ->
  forall new_path1 new_path2,
    length new_path1 = length new_path2 -> length new_path1 mod nppcc = 0 ->
    exists new_path1' new_path2',
      fold_left (align_subpaths subpaths1 subpaths2) ns (Ok (new_path1, new_path2))
      = Ok (new_path1', new_path2') /\
      length new_path1' = length new_path2' /\ length new_path1' mod nppcc = 0.
Proof.
  intros Hne1 Hall1 Hne2 Hall2.
  induction ns as [|n ns IH]; intros new_path1 new_path2 Heq Hmod.
  - exists new_path1, new_path2. now repeat split.
  - destruct (align_subpaths_step new_path1 new_path2 n Hne1 Hall1 Hne2 Hall2)
      as (sp1 & sp2 & Hstep & Hlen & Hsp & _).
    cbn [fold_left]. rewrite Hstep. apply IH.
    + rewrite !length_app. lia.
    + now rewrite length_app, Nat.Div0.add_mod, Hmod, Hsp.
Qed.

Lemma exec_complete_path (self : VMobject) :
  length_invariant (points self) ->
  exists self',
    exec complete_path self = Ok self' /\ whole (points self') /\
    tolerance_for_point_equality self' = tolerance_for_point_equality self /\
    (length (points self) mod nppcc = 0 -> points self <> [] ->
     points self' = points self).
Proof.
  intros Hinv. destruct (complete_path_run self) as (extra & Hrun & Hwhole & Hsame).
  exists (with_points self (points self ++ extra)). split; [|split; [|split]].
  - unfold exec. now rewrite Hrun.
  - now apply Hwhole.
  - reflexivity.
  - intros Hmod Hne. cbn [with_points points].
    rewrite (Hsame Hmod Hne). apply app_nil_r.
Qed.

Lemma align_points_run (self vmobject s v : VMobject) :
  length_invariant (points self) -> length_invariant (points vmobject) ->
  align_rgbas self vmobject = Ok (s, v) ->
  exists self' vmobject',
    align_points self vmobject = Ok (self', vmobject') /\
    length (points self') = length (points vmobject') /\
    length_invariant (points self') /\ length_invariant (points vmobject').
Proof.
  intros Hinv1 Hinv2 Hrgbas.
  destruct (align_rgbas_frame _ _ Hrgbas) as [[Hp1 _] [Hp2 _]].
  unfold align_points. rewrite Hrgbas. cbn [result_bind].
  destruct (Nat.eqb_spec (get_num_points s) (get_num_points v)) as [Heq|Hneq].
  - exists s, v. split; [reflexivity|]. split; [exact Heq|].
    rewrite Hp1, Hp2. now split.
  - rewrite <- Hp1 in Hinv1. rewrite <- Hp2 in Hinv2.
    destruct (exec_complete_path s Hinv1) as (s' & -> & [Hl1 Hm1] & _).
    destruct (exec_complete_path v Hinv2) as (v' & -> & [Hl2 Hm2] & _).
    cbn [result_bind].
    destruct (@subpaths_complete s' (points s') Hm1 Hl1) as (Hne1 & Hall1 & _).
    destruct (@subpaths_complete v' (points v') Hm2 Hl2) as (Hne2 & Hall2 & _).
    destruct (@align_subpaths_fold (get_subpaths s') (get_subpaths v')
                (Np.range 0 (Nat.max (length (get_subpaths s'))
                                     (length (get_subpaths v'))) 1)
                Hne1 Hall1 Hne2 Hall2 [] [] eq_refl eq_refl)
      as (new_path1 & new_path2 & -> & Hlen & Hmod).
    cbn [result_bind]. eexists. eexists. split; [reflexivity|].
    cbn [with_points points]. split; [exact Hlen|].
    split; left; [exact Hmod | now rewrite <- Hlen].
Qed.

Lemma get_subpaths_ext (a b : VMobject) :
  points a = points b ->
  tolerance_for_point_equality a = tolerance_for_point_equality b ->
  get_subpaths a = get_subpaths b.
Proof.
  intros Hp Ht.
  unfold get_subpaths, get_subpaths_from_points, get_points, consider_points_equals.
  now rewrite Hp, Ht.
Qed.

Lemma single_subpath (self : VMobject) :
  length (points self) mod nppcc = 0 -> nppcc <= length (points self) ->
  length (get_subpaths self) = 1 ->
  get_subpaths self = [points self].
Proof.
  intros Hmod Hlen Hone.
  destruct (@subpaths_complete self (points self) Hmod Hlen) as (_ & _ & Hcat).
  fold (get_points self) in Hcat. fold (get_subpaths self) in Hcat.
  destruct (get_subpaths self) as [|r [|r' rest]]; try discriminate.
  cbn [concat] in Hcat. rewrite app_nil_r in Hcat. now rewrite Hcat.
Qed.

Lemma align_points_single_subpaths (self vmobject s v : VMobject) (c1 c2 : nat) :
  1 <= c1 -> 1 <= c2 ->
  length (points self) = nppcc * c1 -> length (points vmobject) = nppcc * c2 ->
  length (get_subpaths self) = 1 -> length (get_subpaths vmobject) = 1 ->
  align_rgbas self vmobject = Ok (s, v) ->
  exists self' vmobject',
    align_points self vmobject = Ok (self', vmobject') /\
    length (points self') = nppcc * Nat.max c1 c2 /\
    length (points vmobject') = nppcc * Nat.max c1 c2.
Proof.
  intros Hc1 Hc2 Hlen1 Hlen2 Hone1 Hone2 Hrgbas.
  destruct (align_rgbas_frame _ _ Hrgbas) as [[Hp1 Ht1] [Hp2 Ht2]].
  assert (Hm1 : length (points s) mod nppcc = 0).
  { rewrite Hp1, Hlen1, Nat.mul_comm. apply Nat.Div0.mod_mul. }
  assert (Hm2 : length (points v) mod nppcc = 0).
  { rewrite Hp2, Hlen2, Nat.mul_comm. apply Nat.Div0.mod_mul. }
  assert (Hne1 : points s <> []).
  { intros E. rewrite Hp1 in E. rewrite E in Hlen1. unfold nppcc in Hlen1.
    cbn [length] in Hlen1. lia. }
  assert (Hne2 : points v <> []).
  { intros E. rewrite Hp2 in E. rewrite E in Hlen2. unfold nppcc in Hlen2.
    cbn [length] in Hlen2. lia. }
  unfold align_points. rewrite Hrgbas. cbn [result_bind].
  destruct (Nat.eqb_spec (get_num_points s) (get_num_points v)) as [Heq|Hneq].
  - exists s, v. split; [reflexivity|].
    unfold get_num_points in Heq. rewrite Hp1, Hp2 in *. unfold nppcc in *.
    split; lia.
  - destruct (@exec_complete_path s (or_introl Hm1)) as (s' & -> & [Hl1 Hw1] & Hts & Hps).
    destruct (@exec_complete_path v (or_introl Hm2)) as (v' & -> & [Hl2 Hw2] & Htv & Hpv).
    specialize (Hps Hm1 Hne1). specialize (Hpv Hm2 Hne2).
    cbn [result_bind].
    assert (Hs1 : get_subpaths s' = [points s']).
    { apply single_subpath; trivial.
      rewrite (@get_subpaths_ext s' self); [exact Hone1 | congruence | congruence]. }
    assert (Hs2 : get_subpaths v' = [points v']).
    { apply single_subpath; trivial.
      rewrite (@get_subpaths_ext v' vmobject); [exact Hone2 | congruence | congruence]. }
    rewrite Hs1, Hs2.
    change (Np.range 0 (Nat.max (length [points s']) (length [points v'])) 1)
      with [0].
    destruct (@align_subpaths_step [points s'] [points v'] [] [] 0) as
        (sp1 & sp2 & Hstep & Hlen & _ & Hmax).
    { discriminate. }
    { constructor; [split; assumption | constructor]. }
    { discriminate. }
    { constructor; [split; assumption | constructor]. }
    cbn [fold_left]. rewrite Hstep. cbn [result_bind].
    eexists. eexists. split; [reflexivity|].
    cbn [with_points points app].
    specialize (Hmax _ _ eq_refl eq_refl).
    rewrite Hps, Hpv, Hp1, Hp2, Hlen1, Hlen2 in Hmax.
    unfold nppcc in *. split; lia.
Qed.

(** C1, as the code has it.  For two mobjects whose buffers satisfy the
    length invariant, the buffers that [align_points] leaves have equal
    length; it returns whenever the colour arrays can be aligned; and a
    single subpath of two curves aligned with a single subpath of five
    leaves five curves, twenty points, on both sides. *)
Theorem align_points_equal_length (self vmobject : VMobject) :
  length_invariant (points self) ->
  length_invariant (points vmobject) ->
  (forall self' vmobject',
      align_points self vmobject = Ok (self', vmobject') ->
      length (points self') = length (points vmobject')) /\
  ((exists mobs, align_rgbas self vmobject = Ok mobs) ->
   exists self' vmobject', align_points self vmobject = Ok (self', vmobject')) /\
  (length (points self) = 8 -> length (points vmobject) = 20 ->
   length (get_subpaths self) = 1 -> length (get_subpaths vmobject) = 1 ->
   forall self' vmobject',
     align_points self vmobject = Ok (self', vmobject') ->
     length (points self') = 20 /\ length (points vmobject') = 20).
Proof.
  intros Hinv1 Hinv2. split; [|split].
  - intros self' vmobject' Hrun.
    destruct (align_rgbas self vmobject) as [[s v]|e] eqn:Hrgbas.
    + destruct (@align_points_run self vmobject s v Hinv1 Hinv2 Hrgbas) as (s' & v' & Hrun' & Hlen & _).
      rewrite Hrun in Hrun'. injection Hrun' as -> ->. exact Hlen.
    + unfold align_points in Hrun. rewrite Hrgbas in Hrun. discriminate.
  - intros [[s v] Hrgbas].
    destruct (@align_points_run self vmobject s v Hinv1 Hinv2 Hrgbas) as (s' & v' & Hrun' & _).
    now exists s', v'.
  - intros Hlen1 Hlen2 Hone1 Hone2 self' vmobject' Hrun.
    destruct (align_rgbas self vmobject) as [[s v]|e] eqn:Hrgbas.
    + destruct (@align_points_single_subpaths self vmobject s v 2 5)
        as (s' & v' & Hrun' & H1 & H2); trivial; try lia.
      rewrite Hrun in Hrun'. injection Hrun' as -> ->.
      split; [exact H1 | exact H2].
    + unfold align_points in Hrun. rewrite Hrgbas in Hrun. discriminate.
Qed.

(** C6, as the code has it.  Started from a buffer that satisfies the
    length invariant, [add_line_to], [add_cubic_bezier_curve_to],
    [add_smooth_curve_to], [insert_n_curves] and [align_points] leave
    buffers that satisfy it, whether they return or raise;
    [start_new_path] does so when started from complete curves. *)
Theorem point_building_keeps_length_invariant :
  (forall self point,
      length (points self) mod 4 = 0 ->
      length_invariant (points (snd (start_new_path point self)))) /\
  (forall self point,
      length_invariant (points self) ->
      length_invariant (points (snd (add_line_to point self)))) /\
  (forall self handle1 handle2 anchor,
      length_invariant (points self) ->
      length_invariant
        (points (snd (add_cubic_bezier_curve_to handle1 handle2 anchor self)))) /\
  (forall self pts,
      length_invariant (points self) ->
      length_invariant (points (snd (add_smooth_curve_to pts self)))) /\
  (forall self n,
      length_invariant (points self) ->
      length_invariant (points (snd (insert_n_curves n self)))) /\
  (forall self vmobject self' vmobject',
      length_invariant (points self) ->
      length_invariant (points vmobject) ->
      align_points self vmobject = Ok (self', vmobject') ->
      length_invariant (points self') /\ length_invariant (points vmobject')).
Proof.
  split; [|split; [|split; [|split; [|split]]]].
  - intros self point Hmod. right.
    cbn [start_new_path append_points modify snd with_points points].
    rewrite length_app, Nat.Div0.add_mod. unfold nppcc. now rewrite Hmod.
  - intros self point. apply add_line_to_invariant.
  - intros self handle1 handle2 anchor. apply add_cubic_bezier_curve_to_invariant.
  - intros self pts. apply add_smooth_curve_to_invariant.
  - intros self n _. apply insert_n_curves_invariant.
  - intros self vmobject self' vmobject' Hinv1 Hinv2 Hrun.
    destruct (align_rgbas self vmobject) as [[s v]|e] eqn:Hrgbas.
    + destruct (@align_points_run self vmobject s v Hinv1 Hinv2 Hrgbas) as (s' & v' & Hrun' & _ & H1 & H2).
      rewrite Hrun in Hrun'. injection Hrun' as -> ->. now split.
    + unfold align_points in Hrun. rewrite Hrgbas in Hrun. discriminate.
Qed.

End Alignment.

(** C1 as stated fails on buffers outside the length invariant: six
    coincident points aligned with twelve leave eight points on one side
    and twelve on the other. *)
Lemma align_points_equal_length_counterexample :
  exists self' vmobject',
    align_points (sample six_points) (sample twelve_points) = Ok (self', vmobject') /\
    length (points self') = 8 /\ length (points vmobject') = 12 /\
    length (points self') <> length (points vmobject').
Proof.
  eexists. eexists. split; [vm_compute; reflexivity|].
  cbn [points]. repeat split. cbn [length]. discriminate.
Qed.

Lemma align_points_equal_length_witness :
  length_invariant (points (sample two_curves)) /\
  length_invariant (points (sample five_curves)) /\
  exists self' vmobject',
    align_points (sample two_curves) (sample five_curves) = Ok (self', vmobject') /\
    length (points self') = 20 /\ length (points vmobject') = 20.
Proof.
  assert (H1 : length_invariant (points (sample two_curves))) by (left; reflexivity).
  assert (H2 : length_invariant (points (sample five_curves))) by (left; reflexivity).
  split; [exact H1|]. split; [exact H2|].
  destruct (@align_points_equal_length sample_collaborators
              (sample two_curves) (sample five_curves) H1 H2) as (_ & Hret & Hlen).
  destruct Hret as (self' & vmobject' & Hrun).
  { eexists. vm_compute. reflexivity. }
  exists self', vmobject'. split; [exact Hrun|].
  apply Hlen; [reflexivity | reflexivity | vm_compute; reflexivity
              | vm_compute; reflexivity | exact Hrun].
Defined.

(** C6 as stated fails for [start_new_path]: called on a buffer that
    already awaits completion it leaves two points. *)
Lemma point_building_keeps_length_invariant_counterexample :
  length_invariant (points (sample [Vec.ORIGIN])) /\
  ~ length_invariant (points (snd (start_new_path Vec.ORIGIN (sample [Vec.ORIGIN])))).
Proof.
  split; [right; reflexivity|].
  intros [H|H]; discriminate H.
Qed.

(** * Further properties *)

(** ** Curve insertion at the edges *)

(** X1.  A point list with no complete curve, other than a single point,
    has nothing to subdivide: whatever [n], the result is empty. *)
Theorem insert_n_curves_to_point_list_no_curve (n : nat) (pts : list Point) :
  length pts < 4 -> length pts <> 1 ->
  insert_n_curves_to_point_list n pts = [].
Proof. apply insert_point_list_short. Qed.

Lemma insert_n_curves_to_point_list_no_curve_witness :
  length [on_axis 0; on_axis 1; on_axis 2] < 4 /\
  length [on_axis 0; on_axis 1; on_axis 2] <> 1 /\
  insert_n_curves_to_point_list 5 [on_axis 0; on_axis 1; on_axis 2] = [].
Proof.
  split; [simpl; lia|]. split; [simpl; lia|].
  apply insert_n_curves_to_point_list_no_curve; simpl; lia.
Defined.

(** X2.  On a buffer of a single point, [insert_n_curves n] leaves [n]
    degenerate curves on that point followed by the point itself:
    [4 * n + 1] copies of it. *)
Theorem insert_n_curves_single_point (self : VMobject) (p : Point) (n : nat) :
  points self = [p] ->
  insert_n_curves n self = (Ok tt, with_points self (repeat p (4 * n + 1))).
Proof.
  intros E.
  unfold insert_n_curves, bind, gets, lift, ret, set_points, append_points, modify.
  assert (Hstarted : has_new_path_started self = true).
  { unfold has_new_path_started. now rewrite E. }
  rewrite Hstarted, (@get_last_point_app self [] p E).
  unfold get_points, with_points. cbn [points tolerance_for_point_equality style].
  rewrite E, insert_point_list_single, repeat_app. reflexivity.
Qed.

Lemma insert_n_curves_single_point_witness :
  points (sample [on_axis 2]) = [on_axis 2] /\
  insert_n_curves 3 (sample [on_axis 2])
  = (Ok tt, with_points (sample [on_axis 2]) (repeat (on_axis 2) (4 * 3 + 1))).
Proof.
  split; [reflexivity|].
  apply insert_n_curves_single_point. reflexivity.
Defined.

(** ** Partial curves of a source without curves *)

(** X3.  When the source holds no complete curve and the range is not the
    whole of it, [pointwise_become_partial] returns with an empty buffer. *)
Theorem pointwise_become_partial_no_curve (self vmobject : VMobject) (a b : Qc) :
  length (points vmobject) < 4 ->
  (0 < a)%Qc \/ (b < 1)%Qc ->
  pointwise_become_partial vmobject a b self = (Ok tt, with_points self []).
Proof.
  intros Hlen Hrange. unfold pointwise_become_partial.
  assert (Hfull : (Scalar.leb a (Q2Qc 0) && Scalar.leb (Q2Qc 1) b)%bool = false).
  { apply andb_false_iff. unfold Scalar.leb.
    destruct Hrange as [Ha|Hb]; [left|right];
      apply not_true_is_false; intros H; apply Qle_bool_iff in H;
      [apply (Qlt_not_le _ _ Ha) | apply (Qlt_not_le _ _ Hb)]; exact H. }
  rewrite Hfull.
  assert (Hnone : get_cubic_bezier_tuples vmobject = []).
  { pose proof (tuples_length (points vmobject)) as E.
    rewrite Nat.div_small in E by exact Hlen.
    unfold get_cubic_bezier_tuples, get_cubic_bezier_tuples_from_points, get_points.
    now destruct (gen_cubic_bezier_tuples_from_points (points vmobject)). }
  rewrite Hnone. cbn [length Z.of_nat].
  destruct (Bezier.integer_interpolate 0 0 a) as [lower_index lower_residue].
  destruct (Bezier.integer_interpolate 0 0 b) as [upper_index upper_residue].
  reflexivity.
Qed.

Lemma pointwise_become_partial_no_curve_witness :
  length (points (sample [on_axis 1; on_axis 2])) < 4 /\
  ((0 < Scalar.frac 1 4)%Qc \/ (Scalar.frac 1 2 < 1)%Qc) /\
  pointwise_become_partial (sample [on_axis 1; on_axis 2])
                           (Scalar.frac 1 4) (Scalar.frac 1 2) (sample three_curves)
  = (Ok tt, with_points (sample three_curves) []).
Proof.
  split; [simpl; lia|]. split; [left; reflexivity|].
  apply pointwise_become_partial_no_curve; [simpl; lia | left; reflexivity].
Defined.

(** ** How the building methods extend a path *)

Lemma line_points_eq (p q : Point) :
  line_points p q
  = [Bezier.interpolate p q (Scalar.frac 1 3);
     Bezier.interpolate p q (Scalar.frac 2 3); q].
Proof.
  unfold line_points, Np.linspace, nppcc. cbn [seq map tl].
  rewrite <- (interpolate_1 p q) at 6.
  repeat f_equal; apply Qc_is_canon; reflexivity.
Qed.

Lemma joined_suffix (body : list Point) (p : Point) (started : bool) (curve : list Point) :
  (body ++ [p]) ++ (if started then curve else p :: curve)
  = (if started then body else body ++ [p]) ++ p :: curve.
Proof. destruct started; [now rewrite <- app_assoc | reflexivity]. Qed.

(** X4.  On a buffer whose last point is [p], [add_cubic_bezier_curve_to]
    makes the buffer end with the curve [p, handle1, handle2, anchor]: the
    point that opened a new path is taken as the first anchor, and otherwise
    the last anchor is repeated. *)
Theorem add_cubic_bezier_curve_to_joins
        (self : VMobject) (body : list Point) (p handle1 handle2 anchor : Point) :
  points self = body ++ [p] ->
  add_cubic_bezier_curve_to handle1 handle2 anchor self
  = (Ok tt, with_points self
              ((if has_new_path_started self then body else body ++ [p])
                 ++ [p; handle1; handle2; anchor])).
Proof.
  intros E. rewrite (@add_cubic_bezier_curve_to_nonempty self body p _ _ _ E).
  now rewrite E, joined_suffix.
Qed.

Lemma add_cubic_bezier_curve_to_joins_witness :
  points (sample [on_axis 0]) = [] ++ [on_axis 0] /\
  add_cubic_bezier_curve_to (on_axis 1) (on_axis 2) (on_axis 3) (sample [on_axis 0])
  = (Ok tt, with_points (sample [on_axis 0])
              ((if has_new_path_started (sample [on_axis 0]) then [] else [] ++ [on_axis 0])
                 ++ [on_axis 0; on_axis 1; on_axis 2; on_axis 3])).
Proof.
  split; [reflexivity|].
  apply add_cubic_bezier_curve_to_joins. reflexivity.
Defined.

Lemma add_line_to_run (self : VMobject) (body : list Point) (p point : Point) :
  points self = body ++ [p] ->
  add_line_to point self
  = (Ok tt, with_points self
              ((if has_new_path_started self then body else body ++ [p])
                 ++ [p; Bezier.interpolate p point (Scalar.frac 1 3);
                     Bezier.interpolate p point (Scalar.frac 2 3); point])).
Proof.
  intros E. rewrite (@add_line_to_nonempty self body p point E).
  now rewrite E, joined_suffix, line_points_eq.
Qed.

(** X5.  On a buffer whose last point is [p], [add_line_to point] makes the
    buffer end with the straight curve from [p] to [point]: handles at one
    third and two thirds of the way, and [point] itself as the last
    anchor. *)
Theorem add_line_to_straight (self : VMobject) (body : list Point) (p point : Point) :
  points self = body ++ [p] ->
  add_line_to point self
  = (Ok tt, with_points self
              ((if has_new_path_started self then body else body ++ [p])
                 ++ [p; Bezier.interpolate p point (Scalar.frac 1 3);
                     Bezier.interpolate p point (Scalar.frac 2 3); point])).
Proof.
  intros E. now apply add_line_to_run.
Qed.

Lemma add_line_to_straight_witness :
  points (sample [on_axis 0]) = [] ++ [on_axis 0] /\
  add_line_to (on_axis 3) (sample [on_axis 0])
  = (Ok tt, with_points (sample [on_axis 0])
              ((if has_new_path_started (sample [on_axis 0]) then [] else [] ++ [on_axis 0])
                 ++ [on_axis 0;
                     Bezier.interpolate (on_axis 0) (on_axis 3) (Scalar.frac 1 3);
                     Bezier.interpolate (on_axis 0) (on_axis 3) (Scalar.frac 2 3);
                     on_axis 3])).
Proof.
  split; [reflexivity|].
  apply add_line_to_straight. reflexivity.
Defined.

Lemma zslice_last_two (body : list Point) (h a : Point) :
  Np.zslice (body ++ [h; a]) (-2) (Z.of_nat (length (body ++ [h; a]))) = [h; a].
Proof.
  destruct (@last_two (body ++ [h; a])) as (body' & h' & a' & E & Htail).
  { rewrite length_app. simpl. lia. }
  rewrite Htail.
  change (body ++ [h; a]) with (body ++ [h] ++ [a]) in E.
  change (body' ++ [h'; a']) with (body' ++ [h'] ++ [a']) in E.
  rewrite !app_assoc in E.
  apply app_inj_tail in E. destruct E as [E ->].
  apply app_inj_tail in E. destruct E as [_ ->].
  reflexivity.
Qed.

Section Smooth.

Context {C : Collaborators}.

(** X6.  On a buffer that has not opened a new path and ends with the
    handle [h] and the anchor [a], [add_smooth_curve_to] appends a curve
    that starts at [a] with the handle [a + (a - h)], the mirror image of
    [h]; the second handle is the one passed, or, when only the anchor is
    passed, the anchor minus the last tangent turned by a half turn about the
    vector to the anchor. *)
Theorem add_smooth_curve_to_mirrors_handle
        (self : VMobject) (body : list Point) (h a handle2 new_anchor : Point) :
  has_new_path_started self = false ->
  points self = body ++ [h; a] ->
  add_smooth_curve_to [handle2; new_anchor] self
  = (Ok tt, with_points self
              (points self ++ [a; Vec.add a (Vec.sub a h); handle2; new_anchor])) /\
  add_smooth_curve_to [new_anchor] self
  = (Ok tt, with_points self
              (points self
                 ++ [a; Vec.add a (Vec.sub a h);
                     Vec.sub new_anchor
                             (rotate_vector (Vec.sub a h) PI (Vec.sub new_anchor a));
                     new_anchor])).
Proof.
  intros Hstarted E.
  assert (Hsome : has_no_points self = false).
  { apply (@has_no_points_false self (body ++ [h]) a).
    now rewrite E, <- app_assoc. }
  assert (Htail : Np.zslice (points self) (-2) (Z.of_nat (length (points self)))
                  = [h; a]).
  { rewrite E. apply zslice_last_two. }
  split;
    unfold add_smooth_curve_to, throw_error_if_no_points, bind, gets, ret,
      append_points, modify;
    rewrite Hstarted, Hsome, Htail; reflexivity.
Qed.

(** X7.  On a buffer that has just opened a new path, [add_smooth_curve_to]
    draws the straight line to the anchor, the same as [add_line_to], and
    ignores a handle passed with it. *)
Theorem add_smooth_curve_to_new_path (self : VMobject) (handle2 new_anchor : Point) :
  has_new_path_started self = true ->
  add_smooth_curve_to [handle2; new_anchor] self = add_line_to new_anchor self /\
  add_smooth_curve_to [new_anchor] self = add_line_to new_anchor self.
Proof.
  intros Hstarted.
  split; unfold add_smooth_curve_to, bind at 1 2, ret at 1, gets at 1;
    now rewrite Hstarted.
Qed.

End Smooth.

Lemma add_smooth_curve_to_mirrors_handle_witness :
  has_new_path_started (sample three_curves) = false /\
  points (sample three_curves)
  = map on_axis [0; 1; 2; 3; 3; 4; 5; 6; 6; 7]%Z ++ [on_axis 8; on_axis 9] /\
  add_smooth_curve_to [on_axis 11; on_axis 12] (sample three_curves)
  = (Ok tt, with_points (sample three_curves)
              (points (sample three_curves)
                 ++ [on_axis 9; Vec.add (on_axis 9) (Vec.sub (on_axis 9) (on_axis 8));
                     on_axis 11; on_axis 12])).
Proof.
  split; [reflexivity|]. split; [reflexivity|].
  apply (@add_smooth_curve_to_mirrors_handle sample_collaborators
           (sample three_curves) (map on_axis [0; 1; 2; 3; 3; 4; 5; 6; 6; 7]%Z)
           (on_axis 8) (on_axis 9) (on_axis 11) (on_axis 12));
    reflexivity.
Defined.

Lemma add_smooth_curve_to_new_path_witness :
  has_new_path_started (sample [on_axis 0]) = true /\
  add_smooth_curve_to [on_axis 5; on_axis 3] (sample [on_axis 0])
  = add_line_to (on_axis 3) (sample [on_axis 0]).
Proof.
  split; [reflexivity|].
  apply (@add_smooth_curve_to_new_path sample_collaborators). reflexivity.
Defined.

(** ** Corners, subpaths and appended mobjects *)

Lemma curves_after_extension (pts : list Point) (n : nat) :
  length_invariant pts ->
  n = (if length pts mod nppcc =? 1 then 3 else 4) ->
  (length pts + n) / nppcc = length pts / nppcc + 1 /\
  (length pts + n) mod nppcc = 0.
Proof.
  unfold length_invariant, nppcc. intros Hinv ->.
  pose proof (Nat.div_mod_eq (length pts) 4) as D.
  destruct (Nat.eqb_spec (length pts mod 4) 1) as [E|E].
  - rewrite E in D.
    replace (length pts + 3) with ((length pts / 4 + 1) * 4) by lia.
    now rewrite Nat.div_mul, Nat.Div0.mod_mul by lia.
  - destruct Hinv as [Hinv|Hinv]; [|contradiction]. rewrite Hinv in D.
    replace (length pts + 4) with ((length pts / 4 + 1) * 4) by lia.
    now rewrite Nat.div_mul, Nat.Div0.mod_mul by lia.
Qed.

Lemma add_line_to_counts (self : VMobject) (body : list Point) (p point : Point) :
  length_invariant (points self) ->
  points self = body ++ [p] ->
  exists body',
    add_line_to point self = (Ok tt, with_points self (body' ++ [point])) /\
    get_num_curves (with_points self (body' ++ [point])) = get_num_curves self + 1 /\
    length (body' ++ [point]) mod nppcc = 0.
Proof.
  intros Hinv E.
  rewrite (@add_line_to_nonempty self body p point E), line_points_eq.
  destruct (@curves_after_extension (points self)
              (if length (points self) mod nppcc =? 1 then 3 else 4) Hinv eq_refl)
    as [Hdiv Hmod].
  unfold has_new_path_started, get_num_curves. cbn [points with_points].
  destruct (length (points self) mod nppcc =? 1).
  - exists (points self ++ [Bezier.interpolate p point (Scalar.frac 1 3);
                            Bezier.interpolate p point (Scalar.frac 2 3)]).
    rewrite <- app_assoc. cbn [app]. split; [reflexivity|].
    rewrite length_app. cbn [length]. now split.
  - exists (points self ++ [p; Bezier.interpolate p point (Scalar.frac 1 3);
                            Bezier.interpolate p point (Scalar.frac 2 3)]).
    rewrite <- app_assoc. cbn [app]. split; [reflexivity|].
    rewrite length_app. cbn [length]. now split.
Qed.

Lemma add_points_as_corners_run (corners : list Point) :
  forall (self : VMobject) (body : list Point) (p : Point),
    length_invariant (points self) ->
    points self = body ++ [p] ->
    exists self',
      forM_ corners add_line_to self = (Ok tt, self') /\
      get_num_curves self' = get_num_curves self + length corners /\
      get_last_point self' = Ok (last corners p) /\
      length_invariant (points self').
Proof.
  induction corners as [|q corners IH]; intros self body p Hinv E.
  - exists self. cbn [forM_ length last]. unfold ret.
    rewrite Nat.add_0_r. repeat split; trivial.
    now apply (@get_last_point_app self body p).
  - destruct (@add_line_to_counts self body p q Hinv E) as (body' & Hrun & Hnum & Hmod).
    destruct (IH (with_points self (body' ++ [q])) body' q) as (self' & Hrest & Hn & Hl & Hi).
    { now left. }
    { reflexivity. }
    exists self'. cbn [forM_]. unfold bind at 1. rewrite Hrun.
    split; [exact Hrest|]. split; [|split; [|exact Hi]].
    + rewrite Hn, Hnum. cbn [length]. lia.
    + rewrite Hl. f_equal. clear. revert p q.
      induction corners as [|c corners IHc]; intros p q; [reflexivity|].
      change (last (q :: c :: corners) p) with (last (c :: corners) p).
      now rewrite <- (IHc q c), <- (IHc p c).
Qed.

(** X8.  On a non-empty buffer that satisfies the length invariant,
    [add_points_as_corners] returns the corners it was given, adds one
    complete curve per corner and leaves the path ending at the last
    corner (at its previous last point when no corner is given). *)
Theorem add_points_as_corners_extends
        (self : VMobject) (body : list Point) (p : Point) (corners : list Point) :
  length_invariant (points self) ->
  points self = body ++ [p] ->
  exists self',
    add_points_as_corners corners self = (Ok corners, self') /\
    get_num_curves self' = get_num_curves self + length corners /\
    get_last_point self' = Ok (last corners p) /\
    length_invariant (points self').
Proof.
  intros Hinv E.
  destruct (@add_points_as_corners_run corners self body p Hinv E)
    as (self' & Hrun & Hrest).
  exists self'. split; [|exact Hrest].
  unfold add_points_as_corners, bind. rewrite Hrun. reflexivity.
Qed.

Lemma add_points_as_corners_extends_witness :
  length_invariant (points (sample [on_axis 0])) /\
  points (sample [on_axis 0]) = [] ++ [on_axis 0] /\
  exists self',
    add_points_as_corners [on_axis 3; on_axis 9] (sample [on_axis 0])
    = (Ok [on_axis 3; on_axis 9], self') /\
    get_num_curves self' = get_num_curves (sample [on_axis 0]) + 2 /\
    get_last_point self' = Ok (on_axis 9) /\
    length_invariant (points self').
Proof.
  assert (H : length_invariant (points (sample [on_axis 0]))) by (right; reflexivity).
  split; [exact H|]. split; [reflexivity|].
  apply (@add_points_as_corners_extends (sample [on_axis 0]) [] (on_axis 0)
           [on_axis 3; on_axis 9] H eq_refl).
Defined.

(** X9.  On an empty buffer, [add_points_as_corners] with at least one
    corner raises on reading the last point and leaves the buffer empty;
    with no corner it returns at once. *)
Theorem add_points_as_corners_empty (self : VMobject) (corners : list Point) :
  points self = [] ->
  add_points_as_corners corners self
  = (match corners with [] => Ok [] | _ :: _ => Raise IndexError end, self).
Proof.
  intros E. unfold add_points_as_corners, bind.
  destruct corners as [|q corners]; [reflexivity|].
  cbn [forM_]. unfold bind. now rewrite add_line_to_empty.
Qed.

Lemma add_points_as_corners_empty_witness :
  points (sample []) = [] /\
  add_points_as_corners [on_axis 1] (sample []) = (Raise IndexError, sample []).
Proof.
  split; [reflexivity|].
  apply (@add_points_as_corners_empty (sample []) [on_axis 1]). reflexivity.
Defined.


Lemma zslice_drop_last {A : Type} (l : list A) :
  Np.zslice l 0 (-1) = firstn (length l - 1) l.
Proof.
  unfold Np.zslice, Np.clamp, Np.slice. cbn [Z.ltb Z.compare].
  replace (Z.to_nat (Z.min 0 (Z.of_nat (length l)))) with 0 by lia.
  replace (Z.to_nat (Z.max 0 (-1 + Z.of_nat (length l)))) with (length l - 1) by lia.
  now rewrite Nat.sub_0_r.
Qed.



(** ** Equality of points within tolerance *)

Section Tolerance.

Local Open Scope Qc_scope.

Lemma leb_iff (x y : Qc) : Scalar.leb x y = true <-> x <= y.
Proof. unfold Scalar.leb. apply Qle_bool_iff. Qed.

Lemma abs_nonneg (x : Qc) : 0 <= Scalar.abs x.
Proof.
  unfold Scalar.abs. destruct (Scalar.leb 0 x) eqn:E.
  - now apply leb_iff.
  - assert (H : x <= 0).
    { apply Qclt_le_weak, Qcnot_le_lt. intros H. apply leb_iff in H. congruence. }
    apply Qcopp_le_compat in H. exact H.
Qed.

Lemma tolerance_margin (tol x : Qc) : 0 <= tol -> 0 <= tol + Np.rtol * Scalar.abs x.
Proof.
  intros Htol.
  replace 0 with (0 + 0 * Scalar.abs x) by ring.
  apply Qcplus_le_compat; [exact Htol|].
  apply Qcmult_le_compat_r; [|apply abs_nonneg].
  apply leb_iff. reflexivity.
Qed.

Lemma close_to_itself (tol x : Qc) :
  0 <= tol -> Scalar.leb (Scalar.abs (x - x)) (tol + Np.rtol * Scalar.abs x) = true.
Proof.
  intros Htol. replace (x - x) with 0 by ring.
  apply leb_iff. now apply tolerance_margin.
Qed.

Lemma consider_points_equals_refl (self : VMobject) (p : Point) :
  0 <= tolerance_for_point_equality self -> consider_points_equals self p p = true.
Proof.
  intros Htol. unfold consider_points_equals, Np.allclose, Vec.coords.
  cbn [combine forallb fst snd]. now rewrite !close_to_itself.
Qed.

Lemma consider_points_equals_implies_2d (self : VMobject) (p0 p1 : Point) :
  consider_points_equals self p0 p1 = true ->
  consider_points_equals_2d self p0 p1 = true.
Proof.
  unfold consider_points_equals, Np.allclose, Vec.coords.
  cbn [combine forallb fst snd]. intros H.
  apply andb_true_iff in H. destruct H as [Hx H].
  apply andb_true_iff in H. destruct H as [Hy _].
  unfold consider_points_equals_2d. fold Np.rtol.
  now rewrite Hx, Hy.
Qed.

(** X12.  [consider_points_equals_2d] holds whenever
    [consider_points_equals] does, does not look at the third coordinate,
    and holds between a point and itself when the tolerance is not
    negative. *)
Theorem consider_points_equals_2d_weaker (self : VMobject) :
  (forall p0 p1,
      consider_points_equals self p0 p1 = true ->
      consider_points_equals_2d self p0 p1 = true) /\
  (forall x0 y0 z0 x1 y1 z1 z0' z1',
      consider_points_equals_2d self (mkPoint x0 y0 z0) (mkPoint x1 y1 z1)
      = consider_points_equals_2d self (mkPoint x0 y0 z0') (mkPoint x1 y1 z1')) /\
  (0 <= tolerance_for_point_equality self ->
   forall p, consider_points_equals_2d self p p = true).
Proof.
  split; [|split].
  - intros p0 p1. apply consider_points_equals_implies_2d.
  - reflexivity.
  - intros Htol p. unfold consider_points_equals_2d. fold Np.rtol.
    now rewrite !close_to_itself.
Qed.

(** X13.  [is_closed] raises on an empty buffer; on a non-empty buffer, with
    a tolerance that is not negative, a line drawn back to the first point
    closes the path. *)
Theorem is_closed_after_line_to_start (self : VMobject) :
  (points self = [] -> is_closed self = Raise IndexError) /\
  (0 <= tolerance_for_point_equality self ->
   forall first rest,
     points self = first :: rest ->
     exists self',
       add_line_to first self = (Ok tt, self') /\ is_closed self' = Ok true).
Proof.
  split.
  - intros E. unfold is_closed. now rewrite E.
  - intros Htol first rest E.
    destruct (@nonempty_last (points self)) as (body & p & E').
    { rewrite E. discriminate. }
    rewrite (@add_line_to_run self body p first E').
    eexists. split; [reflexivity|].
    unfold is_closed. cbn [points with_points].
    set (curve := [p; Bezier.interpolate p first (Scalar.frac 1 3);
                   Bezier.interpolate p first (Scalar.frac 2 3)]).
    assert (Hshape : exists middle,
               (if has_new_path_started self then body else body ++ [p])
                 ++ [p; Bezier.interpolate p first (Scalar.frac 1 3);
                     Bezier.interpolate p first (Scalar.frac 2 3); first]
               = first :: middle ++ [first]).
    { rewrite E in E'.
      destruct (has_new_path_started self).
      - destruct body as [|b body].
        + injection E' as -> _. exists (tl curve). reflexivity.
        + injection E' as -> _. exists (body ++ curve).
          cbn [app]. f_equal. now rewrite <- app_assoc.
      - rewrite <- E'. exists (rest ++ curve).
        cbn [app]. f_equal. now rewrite <- app_assoc. }
    destruct Hshape as [middle ->].
    change (first :: middle ++ [first]) with ((first :: middle) ++ [first]) at 2.
    change (Np.index ((first :: middle) ++ [first]) (-1))
      with (Np.last_item ((first :: middle) ++ [first])).
    rewrite last_item_app.
    change (Np.index (first :: middle ++ [first]) 0) with (Ok first).
    cbn [result_bind]. f_equal.
    unfold consider_points_equals. cbn [tolerance_for_point_equality].
    now apply (@consider_points_equals_refl self first).
Qed.

End Tolerance.

(** ** The curves of a buffer, one by one *)

Lemma slices_concat (pts : list Point) (c a : nat) :
  concat (map (fun k => Np.slice pts (nppcc * k) (nppcc * k + nppcc)) (seq a c))
  = Np.slice pts (nppcc * a) (nppcc * (a + c)).
Proof.
  revert a. induction c as [|c IH]; intros a.
  - rewrite Nat.add_0_r. unfold Np.slice. now rewrite Nat.sub_diag.
  - cbn [seq map concat]. rewrite IH.
    replace (nppcc * S a) with (nppcc * a + nppcc) by (unfold nppcc; lia).
    rewrite slice_app by (unfold nppcc; lia).
    f_equal. unfold nppcc. lia.
Qed.

Lemma tuples_eq (pts : list Point) :
  gen_cubic_bezier_tuples_from_points pts
  = map (fun k => Np.slice pts (nppcc * k) (nppcc * k + nppcc))
        (seq 0 (length pts / nppcc)).
Proof.
  apply nth_error_ext. intros k.
  destruct (Nat.lt_ge_cases k (length pts / nppcc)) as [Hlt|Hge].
  - rewrite tuples_nth_error by exact Hlt.
    rewrite nth_error_map, nth_error_seq.
    destruct (Nat.ltb_spec k (length pts / nppcc)); [reflexivity|lia].
  - rewrite (proj2 (nth_error_None _ _)) by (rewrite tuples_length; exact Hge).
    symmetry. apply nth_error_None. now rewrite length_map, length_seq.
Qed.

Lemma tuples_concat (pts : list Point) :
  concat (gen_cubic_bezier_tuples_from_points pts)
    ++ skipn (4 * (length pts / 4)) pts = pts.
Proof.
  rewrite tuples_eq, slices_concat. unfold Np.slice, nppcc.
  rewrite Nat.add_0_l, Nat.mul_0_r, Nat.sub_0_r, skipn_0.
  apply firstn_skipn.
Qed.

Lemma leftover_length (pts : list Point) :
  length (skipn (4 * (length pts / 4)) pts) = length pts mod 4.
Proof.
  rewrite length_skipn.
  pose proof (Nat.div_mod_eq (length pts) 4). lia.
Qed.

(** X14.  The curves that [gen_cubic_bezier_tuples_from_points] yields are
    the consecutive groups of four points of the list, as many as fit;
    put end to end they give back the list without the fewer than four
    points left over at its end. *)
Theorem tuples_partition (pts : list Point) :
  gen_cubic_bezier_tuples_from_points pts
  = map (fun k => Np.slice pts (4 * k) (4 * k + 4)) (seq 0 (length pts / 4)) /\
  Forall (fun quad => length quad = 4) (gen_cubic_bezier_tuples_from_points pts) /\
  concat (gen_cubic_bezier_tuples_from_points pts)
    ++ skipn (4 * (length pts / 4)) pts = pts /\
  length (skipn (4 * (length pts / 4)) pts) = length pts mod 4.
Proof.
  split; [apply tuples_eq|]. split; [apply tuples_Forall_length|]. split.
  - apply tuples_concat.
  - apply leftover_length.
Qed.

(** X15.  For [0 <= k < get_num_curves], [get_nth_curve_points k] is the
    [k]-th curve of [get_cubic_bezier_tuples], the points [4k .. 4k+3] of
    the buffer; from [get_num_curves] on, its assertion fails. *)
Theorem get_nth_curve_points_in_range (self : VMobject) :
  (forall k,
      k < get_num_curves self ->
      get_nth_curve_points self (Z.of_nat k)
      = Ok (Np.slice (points self) (4 * k) (4 * k + 4)) /\
      nth_error (get_cubic_bezier_tuples self) k
      = Some (Np.slice (points self) (4 * k) (4 * k + 4))) /\
  (forall n,
      (Z.of_nat (get_num_curves self) <= n)%Z ->
      get_nth_curve_points self n = Raise AssertionError).
Proof.
  split.
  - intros k Hk. split.
    + unfold get_nth_curve_points.
      destruct (Z.ltb_spec (Z.of_nat k) (Z.of_nat (get_num_curves self))); [|lia].
      f_equal. unfold Np.zslice, Np.clamp, get_num_curves, nppcc in *.
      pose proof (Nat.div_mod_eq (length (points self)) 4) as D.
      destruct (Z.ltb_spec (Z.of_nat 4 * Z.of_nat k) 0); [lia|].
      destruct (Z.ltb_spec (Z.of_nat 4 * (Z.of_nat k + 1)) 0); [lia|].
      f_equal; lia.
    + unfold get_cubic_bezier_tuples, get_cubic_bezier_tuples_from_points, get_points.
      now apply tuples_nth_error.
  - intros n Hn. unfold get_nth_curve_points.
    destruct (Z.ltb_spec n (Z.of_nat (get_num_curves self))); [lia|reflexivity].
Qed.

(** ** Inserting no curve *)

Lemma split_factors_same (c : nat) : split_factors c c = map (fun _ => 1) (seq 0 c).
Proof.
  destruct c as [|c]; [reflexivity|].
  rewrite split_factors_eq by lia.
  apply map_ext. intros k. unfold piece_start.
  replace (S k * S c + (S c - 1)) with (c + S k * S c) by lia.
  replace (k * S c + (S c - 1)) with (c + k * S c) by lia.
  rewrite !Nat.div_add by lia. rewrite Nat.div_small by lia. lia.
Qed.

Lemma split_quad_one (quad : list Point) :
  length quad = 4 -> split_quad quad 1 = quad.
Proof.
  intros H.
  destruct quad as [|a1 [|h1 [|h2 [|a2 [|x quad]]]]]; try discriminate.
  unfold split_quad, Np.linspace, Np.adjacent. cbn [Nat.add seq map tl combine flat_map].
  rewrite app_nil_r.
  replace (Q2Qc 0 + Scalar.of_nat 0 * ((Q2Qc 1 - Q2Qc 0) / Scalar.of_nat (2 - 1)))%Qc
    with (Q2Qc 0) by (apply Qc_is_canon; reflexivity).
  replace (Q2Qc 0 + Scalar.of_nat 1 * ((Q2Qc 1 - Q2Qc 0) / Scalar.of_nat (2 - 1)))%Qc
    with (Q2Qc 1) by (apply Qc_is_canon; reflexivity).
  apply partial_bezier_points_whole.
Qed.

Lemma split_all_once (quads : list (list Point)) (a : nat) :
  Forall (fun quad => length quad = 4) quads ->
  flat_map (fun '(quad, sf) => split_quad quad sf)
           (combine quads (map (fun _ => 1) (seq a (length quads))))
  = concat quads.
Proof.
  intros H. revert a. induction H as [|quad quads Hquad _ IH]; intros a; [reflexivity|].
  cbn [length seq map combine flat_map concat].
  now rewrite split_quad_one, IH.
Qed.

(** X16.  On a point list of complete curves, inserting no curve returns
    the list as it is. *)
Theorem insert_no_curve (pts : list Point) :
  length pts mod 4 = 0 -> insert_n_curves_to_point_list 0 pts = pts.
Proof.
  intros Hmod.
  assert (Hne : length pts <> 1) by (intros E; rewrite E in Hmod; discriminate).
  rewrite insert_point_list_unfold by exact Hne.
  rewrite Nat.add_0_r, split_factors_same.
  unfold get_cubic_bezier_tuples_from_points.
  rewrite <- (tuples_length pts), split_all_once by apply tuples_Forall_length.
  pose proof (tuples_concat pts) as Hcat.
  pose proof (leftover_length pts) as Hrest.
  rewrite Hmod in Hrest. apply length_zero_iff_nil in Hrest.
  rewrite Hrest, app_nil_r in Hcat. exact Hcat.
Qed.

Lemma insert_no_curve_witness :
  length three_curves mod 4 = 0 /\
  insert_n_curves_to_point_list 0 three_curves = three_curves.
Proof.
  split; [reflexivity|].
  apply insert_no_curve. reflexivity.
Defined.

(** ** Subpaths under any filter *)

Section AnyFilter.

Variable pts : list Point.
Variable filter_func : nat -> bool.

Let cuts : list nat := filter filter_func (Np.range nppcc (length pts) nppcc).

Lemma cuts_gapped : gapped 0 cuts.
Proof. unfold cuts, Np.range. apply gapped_range_filter. lia. Qed.

Lemma cuts_bound : Forall (fun x => x <= length pts) cuts.
Proof.
  apply Forall_forall. intros n Hn. unfold cuts in Hn.
  apply filter_In in Hn. destruct Hn as [Hn _].
  apply range_In in Hn; [lia | unfold nppcc; lia].
Qed.

Lemma gen_subpaths_unfold :
  _gen_subpaths_from_points pts filter_func
  = map (fun b : nat * nat => let '(i1, i2) := b in Np.slice pts i1 i2)
        (Np.adjacent (0 :: cuts))
    ++ (if nppcc <=? length pts - last cuts 0
        then [Np.slice pts (last cuts 0) (length pts)]
        else []).
Proof.
  unfold _gen_subpaths_from_points. fold cuts.
  change ([0] ++ cuts ++ [length pts]) with (0 :: cuts ++ [length pts]).
  rewrite adjacent_snoc, filter_app, map_app.
  rewrite (@gapped_all_kept 0 cuts cuts_gapped).
  f_equal. cbn [filter].
  destruct (Z.leb_spec (Z.of_nat nppcc) (Z.of_nat (length pts) - Z.of_nat (last cuts 0)));
    destruct (Nat.leb_spec nppcc (length pts - last cuts 0));
    try reflexivity; unfold nppcc in *; lia.
Qed.

Lemma gen_subpaths_long :
  Forall (fun r => nppcc <= length r) (_gen_subpaths_from_points pts filter_func).
Proof.
  rewrite gen_subpaths_unfold. apply Forall_app. split.
  - apply gapped_runs_long; [apply cuts_gapped | apply cuts_bound].
  - destruct (Nat.leb_spec nppcc (length pts - last cuts 0)); constructor; [|constructor].
    rewrite slice_length. lia.
Qed.

Lemma gen_subpaths_concat :
  exists rest,
    concat (_gen_subpaths_from_points pts filter_func) ++ rest = pts /\
    length rest < nppcc.
Proof.
  rewrite gen_subpaths_unfold, concat_app.
  rewrite (@gapped_concat pts 0 cuts cuts_gapped).
  assert (Hlast : last cuts 0 <= length pts).
  { apply last_Forall; [lia | apply cuts_bound]. }
  destruct (Nat.leb_spec nppcc (length pts - last cuts 0)).
  - exists []. cbn [concat]. rewrite !app_nil_r.
    rewrite slice_app by lia. split; [apply slice_all | cbn [length]; unfold nppcc; lia].
  - exists (Np.slice pts (last cuts 0) (length pts)).
    cbn [concat]. rewrite app_nil_r, slice_app by lia.
    split; [apply slice_all | rewrite slice_length; unfold nppcc in *; lia].
Qed.

End AnyFilter.

(** X17.  Whatever the filter, [_gen_subpaths_from_points] returns runs of
    at least four points each which, put end to end in the order returned,
    give back the point list without fewer than four points at its end. *)
Theorem gen_subpaths_partition (pts : list Point) (filter_func : nat -> bool) :
  Forall (fun r => 4 <= length r) (_gen_subpaths_from_points pts filter_func) /\
  exists rest,
    concat (_gen_subpaths_from_points pts filter_func) ++ rest = pts /\
    length rest < 4.
Proof.
  split; [apply gen_subpaths_long | apply gen_subpaths_concat].
Qed.

(** X18.  [gen_subpaths_from_points_2d] cuts the buffer only at indices
    where [get_subpaths_from_points] cuts it too: points that are equal in
    space are equal in the plane. *)
Theorem gen_subpaths_from_points_2d_coarser (self : VMobject) (pts : list Point) :
  gen_subpaths_from_points_2d self pts
  = map (fun '(i1, i2) => Np.slice pts i1 i2)
        (filter (fun '(i1, i2) => (4 <=? Z.of_nat i2 - Z.of_nat i1)%Z)
                (Np.adjacent ([0] ++ split_indices_2d self pts ++ [length pts]))) /\
  (forall n, In n (split_indices_2d self pts) -> In n (split_indices self pts)).
Proof.
  split; [reflexivity|].
  intros n. unfold split_indices_2d, split_indices. rewrite !filter_In.
  intros [Hrange H2d]. split; [exact Hrange|].
  apply negb_true_iff in H2d. apply negb_true_iff.
  destruct (consider_points_equals self (point_at pts (n - 1)) (point_at pts n)) eqn:E;
    [|reflexivity].
  apply consider_points_equals_implies_2d in E. congruence.
Qed.

(** ** Aligned colour arrays *)








(** ** Partial curves are whole curves *)

Section PartialLength.

Local Open Scope Qc_scope.

Lemma of_Z_nonneg (z : Z) : (0 <= z)%Z -> 0 <= Scalar.of_Z z.
Proof.
  intros H. unfold Scalar.of_Z, Qcle. cbn [this Q2Qc].
  rewrite !Qred_correct. change (inject_Z 0 <= inject_Z z)%Q.
  now rewrite <- Zle_Qle.
Qed.

Lemma floor_nonneg (x : Qc) : 0 <= x -> (0 <= Scalar.floor x)%Z.
Proof.
  intros H. unfold Scalar.floor.
  change 0%Z with (Qfloor (this 0)). now apply Qfloor_resp_le.
Qed.

Lemma floor_mono (x y : Qc) : x <= y -> (Scalar.floor x <= Scalar.floor y)%Z.
Proof. intros H. unfold Scalar.floor. now apply Qfloor_resp_le. Qed.

Lemma integer_interpolate_index (c : nat) (x : Qc) :
  (1 <= c)%nat -> 0 <= x ->
  (0 <= fst (Bezier.integer_interpolate 0 (Z.of_nat c) x) < Z.of_nat c)%Z.
Proof.
  intros Hc Hx. unfold Bezier.integer_interpolate. cbn [fst].
  rewrite Z.sub_0_r, Z.add_0_l.
  assert (H : (0 <= Scalar.floor (x * Scalar.of_Z (Z.of_nat c)))%Z).
  { apply floor_nonneg. replace 0 with (0 * Scalar.of_Z (Z.of_nat c)) by ring.
    apply Qcmult_le_compat_r; [exact Hx | apply of_Z_nonneg; lia]. }
  lia.
Qed.

Lemma integer_interpolate_mono (c : nat) (x y : Qc) :
  x <= y ->
  (fst (Bezier.integer_interpolate 0 (Z.of_nat c) x)
   <= fst (Bezier.integer_interpolate 0 (Z.of_nat c) y))%Z.
Proof.
  intros Hxy. unfold Bezier.integer_interpolate. cbn [fst].
  rewrite Z.sub_0_r, !Z.add_0_l.
  assert (H : (Scalar.floor (x * Scalar.of_Z (Z.of_nat c))
               <= Scalar.floor (y * Scalar.of_Z (Z.of_nat c)))%Z).
  { apply floor_mono. apply Qcmult_le_compat_r; [exact Hxy | apply of_Z_nonneg; lia]. }
  lia.
Qed.

End PartialLength.

Lemma index_in_range {A : Type} (l : list A) (i : Z) :
  (0 <= i < Z.of_nat (length l))%Z ->
  exists a, Np.index l i = Ok a /\ In a l.
Proof.
  intros Hi.
  destruct (@index_nat A l (Z.to_nat i)) as (a & Ha & Hnth); [lia|].
  rewrite Z2Nat.id in Ha by lia.
  exists a. split; [exact Ha|]. eapply nth_error_In. exact Hnth.
Qed.

Lemma slice_incl {A : Type} (l : list A) (i1 i2 : nat) : incl (Np.slice l i1 i2) l.
Proof.
  unfold Np.slice. intros x Hx.
  rewrite <- (firstn_skipn i1 l). apply in_or_app. right.
  rewrite <- (firstn_skipn (i2 - i1) (skipn i1 l)). apply in_or_app. now left.
Qed.

Lemma zslice_between {A : Type} (l : list A) (lo hi : Z) :
  (0 <= lo)%Z -> (lo < hi)%Z -> (hi < Z.of_nat (length l))%Z ->
  length (Np.zslice l (lo + 1) hi) = Z.to_nat (hi - lo - 1) /\
  incl (Np.zslice l (lo + 1) hi) l.
Proof.
  intros Hlo Hlt Hhi. unfold Np.zslice, Np.clamp.
  destruct (Z.ltb_spec (lo + 1) 0); [lia|].
  destruct (Z.ltb_spec hi 0); [lia|].
  split.
  - rewrite slice_length. lia.
  - apply slice_incl.
Qed.

Lemma forM_append_points (runs : list (list Point)) (self : VMobject) :
  forM_ runs append_points self = (Ok tt, with_points self (points self ++ concat runs)).
Proof.
  revert self. induction runs as [|r runs IH]; intros self.
  - cbn [forM_ concat]. unfold ret. now rewrite with_points_same.
  - cbn [forM_ concat]. unfold bind at 1. cbn [append_points modify].
    rewrite IH. unfold with_points. cbn [points tolerance_for_point_equality style].
    now rewrite app_assoc.
Qed.

Lemma concat_quads_length (quads : list (list Point)) :
  Forall (fun quad => length quad = nppcc) quads ->
  length (concat quads) = nppcc * length quads.
Proof.
  induction 1 as [|quad quads Hq _ IH]; [reflexivity|].
  cbn [concat length]. rewrite length_app, Hq, IH. unfold nppcc. lia.
Qed.

(** X20.  For a source of at least one complete curve and a range
    [0 <= a <= b <= 1] other than the whole, [pointwise_become_partial]
    returns with whole curves only: as many as the indices that
    [integer_interpolate] gives for [a] and [b] span, at least one and at
    most those of the source. *)
Theorem pointwise_become_partial_whole_curves
        (self vmobject : VMobject) (a b : Qc) :
  1 <= get_num_curves vmobject ->
  (0 <= a)%Qc -> (a <= b)%Qc ->
  (0 < a)%Qc \/ (b < 1)%Qc ->
  exists pts,
    pointwise_become_partial vmobject a b self = (Ok tt, with_points self pts) /\
    length pts
    = 4 * (Z.to_nat
             (fst (Bezier.integer_interpolate 0 (Z.of_nat (get_num_curves vmobject)) b)
              - fst (Bezier.integer_interpolate 0 (Z.of_nat (get_num_curves vmobject)) a))
           + 1) /\
    4 <= length pts <= 4 * get_num_curves vmobject.
Proof.
  intros Hc Ha Hab Hrange.
  assert (Hb : (0 <= b)%Qc) by (eapply Qcle_trans; eassumption).
  pose proof (@integer_interpolate_index _ a Hc Ha) as Hlo.
  pose proof (@integer_interpolate_index _ b Hc Hb) as Hhi.
  pose proof (@integer_interpolate_mono (get_num_curves vmobject) a b Hab) as Hmono.
  unfold pointwise_become_partial.
  assert (Hfull : (Scalar.leb a (Q2Qc 0) && Scalar.leb (Q2Qc 1) b)%bool = false).
  { apply andb_false_iff. unfold Scalar.leb.
    destruct Hrange as [Ha'|Hb']; [left|right];
      apply not_true_is_false; intros H; apply Qle_bool_iff in H;
      [apply (Qlt_not_le _ _ Ha') | apply (Qlt_not_le _ _ Hb')]; exact H. }
  rewrite Hfull.
  assert (Hlen : length (get_cubic_bezier_tuples vmobject) = get_num_curves vmobject).
  { unfold get_cubic_bezier_tuples, get_cubic_bezier_tuples_from_points, get_points.
    apply tuples_length. }
  assert (Hall : Forall (fun quad => length quad = nppcc)
                        (get_cubic_bezier_tuples vmobject)).
  { apply tuples_Forall_length. }
  rewrite Hlen.
  destruct (Bezier.integer_interpolate 0 (Z.of_nat (get_num_curves vmobject)) a)
    as [lower_index lower_residue].
  destruct (Bezier.integer_interpolate 0 (Z.of_nat (get_num_curves vmobject)) b)
    as [upper_index upper_residue].
  cbn [fst] in *.
  destruct (@index_in_range _ (get_cubic_bezier_tuples vmobject) lower_index)
    as (quad1 & Hq1 & Hin1); [rewrite Hlen; exact Hlo|].
  destruct (@index_in_range _ (get_cubic_bezier_tuples vmobject) upper_index)
    as (quad2 & Hq2 & Hin2); [rewrite Hlen; exact Hhi|].
  rewrite Forall_forall in Hall.
  destruct (Nat.eqb_spec (get_num_curves vmobject) 0) as [E|_]; [lia|].
  unfold bind at 1. cbn [clear_points modify].
  destruct (Z.eqb_spec lower_index upper_index) as [Heq|Hne].
  - unfold bind, lift, append_points, modify. rewrite Hq1.
    eexists. split; [reflexivity|].
    cbn [points with_points app].
    rewrite partial_bezier_points_length, (Hall quad1 Hin1).
    subst upper_index. rewrite Z.sub_diag. unfold nppcc.
    change (Z.to_nat 0) with 0%nat. lia.
  - destruct (@zslice_between _ (get_cubic_bezier_tuples vmobject)
                lower_index upper_index) as [Hmid Hincl];
      [lia | lia | rewrite Hlen; lia |].
    unfold bind at 1, lift at 1. rewrite Hq1.
    unfold bind at 1. cbn [append_points modify].
    unfold bind at 1. rewrite forM_append_points.
    unfold bind at 1, lift at 1. rewrite Hq2.
    cbn [append_points modify].
    eexists. split; [reflexivity|].
    cbn [points with_points app].
    rewrite !length_app, !partial_bezier_points_length.
    rewrite (Hall quad1 Hin1), (Hall quad2 Hin2).
    rewrite concat_quads_length, Hmid.
    + unfold nppcc. lia.
    + apply Forall_forall. intros quad Hq. apply Hall. now apply Hincl.
Qed.

Lemma pointwise_become_partial_whole_curves_witness :
  1 <= get_num_curves (sample three_curves) /\
  (0 <= Scalar.frac 1 4)%Qc /\ (Scalar.frac 1 4 <= Scalar.frac 3 4)%Qc /\
  ((0 < Scalar.frac 1 4)%Qc \/ (Scalar.frac 3 4 < 1)%Qc) /\
  exists pts,
    pointwise_become_partial (sample three_curves) (Scalar.frac 1 4) (Scalar.frac 3 4)
                             (sample [])
    = (Ok tt, with_points (sample []) pts) /\
    4 <= length pts <= 4 * get_num_curves (sample three_curves).
Proof.
  assert (H1 : 1 <= get_num_curves (sample three_curves)) by (vm_compute; lia).
  assert (H2 : (0 <= Scalar.frac 1 4)%Qc) by (vm_compute; discriminate).
  assert (H3 : (Scalar.frac 1 4 <= Scalar.frac 3 4)%Qc) by (vm_compute; discriminate).
  assert (H4 : (0 < Scalar.frac 1 4)%Qc \/ (Scalar.frac 3 4 < 1)%Qc)
    by (left; reflexivity).
  split; [exact H1|]. split; [exact H2|]. split; [exact H3|]. split; [exact H4|].
  destruct (@pointwise_become_partial_whole_curves (sample []) (sample three_curves)
              (Scalar.frac 1 4) (Scalar.frac 3 4) H1 H2 H3 H4) as (pts & Hrun & _ & Hlen).
  exists pts. split; [exact Hrun | exact Hlen].
Defined.

(** ** Anchors and handles *)

Lemma imap_from_length {A B : Type} (s : nat) (f : nat -> A -> B) (l : list A) :
  length (imap_from s f l) = length l.
Proof.
  revert s. induction l as [|x l IH]; intros s; [reflexivity|].
  cbn [imap_from length]. now rewrite IH.
Qed.

Lemma imap_from_nth_error {A B : Type} (s : nat) (f : nat -> A -> B) (l : list A) (i : nat) :
  nth_error (imap_from s f l) i = option_map (f (s + i)) (nth_error l i).
Proof.
  revert s i. induction l as [|x l IH]; intros s [|i]; cbn [imap_from nth_error option_map];
    trivial.
  - now rewrite Nat.add_0_r.
  - rewrite IH. now replace (S s + i) with (s + S i) by lia.
Qed.

Lemma on_stride_column (j i : nat) :
  j < 4 -> on_stride j 4 i = (i mod 4 =? j).
Proof.
  intros Hj. unfold on_stride.
  pose proof (Nat.div_mod_eq i 4) as D.
  pose proof (Nat.mod_upper_bound i 4 ltac:(lia)) as B.
  destruct (Nat.leb_spec j i) as [Hle|Hlt]; cbn [andb].
  - pose proof (Nat.div_mod_eq (i - j) 4) as D'.
    pose proof (Nat.mod_upper_bound (i - j) 4 ltac:(lia)) as B'.
    destruct (Nat.eqb_spec ((i - j) mod 4) 0) as [E|E];
      destruct (Nat.eqb_spec (i mod 4) j) as [E'|E']; trivial; exfalso; lia.
  - destruct (Nat.eqb_spec (i mod 4) j); [lia|reflexivity].
Qed.

Lemma stride_count (n j : nat) :
  j < 4 -> length (Np.range j (nppcc * n) nppcc) = n.
Proof.
  intros Hj. rewrite range_length. unfold nppcc.
  destruct n as [|n].
  - replace (4 * 0 - j + (4 - 1)) with 3 by lia. reflexivity.
  - replace (4 * S n - j + (4 - 1)) with ((3 - j + 4) + n * 4) by lia.
    rewrite Nat.div_add by lia.
    replace ((3 - j + 4) / 4) with 1; [lia|].
    destruct j as [|[|[|[|j]]]]; try reflexivity; lia.
Qed.

Lemma interleave_length (a1 h1 h2 a2 : list Point) :
  length h1 = length a1 -> length h2 = length a1 -> length a2 = length a1 ->
  length (interleave a1 h1 h2 a2) = nppcc * length a1.
Proof.
  revert h1 h2 a2.
  induction a1 as [|x1 a1 IH]; intros [|x2 h1] [|x3 h2] [|x4 a2] E1 E2 E3;
    try discriminate; [reflexivity|].
  cbn [interleave length]. rewrite IH by (cbn [length] in *; lia).
  unfold nppcc. lia.
Qed.

Lemma interleave_nth_error (a1 h1 h2 a2 : list Point) (i : nat) :
  length h1 = length a1 -> length h2 = length a1 -> length a2 = length a1 ->
  nth_error (interleave a1 h1 h2 a2) i
  = nth_error (column (i mod 4) a1 h1 h2 a2) (i / 4).
Proof.
  revert h1 h2 a2 i.
  induction a1 as [|x1 a1 IH]; intros [|x2 h1] [|x3 h2] [|x4 a2] i E1 E2 E3;
    try discriminate.
  - cbn [interleave]. rewrite nth_error_nil.
    destruct (i mod 4) as [|[|[|j]]]; cbn [column]; now rewrite nth_error_nil.
  - destruct i as [|[|[|[|i]]]]; try reflexivity.
    cbn [interleave nth_error].
    rewrite IH by (cbn [length] in *; lia).
    replace (S (S (S (S i)))) with (i + 1 * 4) by lia.
    rewrite Nat.Div0.mod_add, Nat.div_add by lia.
    replace (i / 4 + 1) with (S (i / 4)) by lia.
    destruct (i mod 4) as [|[|[|j]]]; reflexivity.
Qed.

Lemma assigned_columns (a1 h1 h2 a2 : list Point) :
  length h1 = length a1 -> length h2 = length a1 -> length a2 = length a1 ->
  let assign j (l : list Point) :=
    imap_from 0 (fun i x => if on_stride j nppcc i
                            then nth ((i - j) / nppcc) (column j a1 h1 h2 a2) x
                            else x) l in
  assign 3 (assign 2 (assign 1 (assign 0 (repeat Vec.ORIGIN (nppcc * length a1)))))
  = interleave a1 h1 h2 a2.
Proof.
  intros E1 E2 E3 assign. apply nth_error_ext. intros i.
  rewrite interleave_nth_error by assumption.
  unfold assign, nppcc. rewrite !imap_from_nth_error, !Nat.add_0_l.
  rewrite !on_stride_column by lia.
  pose proof (Nat.div_mod_eq i 4) as D.
  pose proof (Nat.mod_upper_bound i 4 ltac:(lia)) as B.
  destruct (Nat.lt_ge_cases i (4 * length a1)) as [Hlt|Hge].
  - rewrite nth_error_repeat by exact Hlt. cbn [option_map].
    assert (Hk : i / 4 < length a1) by lia.
    destruct (i mod 4) as [|[|[|[|j]]]] eqn:Em; try lia; cbn [Nat.eqb column];
      symmetry.
    + replace ((i - 0) / 4) with (i / 4) by (f_equal; lia).
      apply nth_error_nth'. lia.
    + replace ((i - 1) / 4) with (i / 4)
        by (replace (i - 1) with (i / 4 * 4) by lia; now rewrite Nat.div_mul by lia).
      apply nth_error_nth'. lia.
    + replace ((i - 2) / 4) with (i / 4)
        by (replace (i - 2) with (i / 4 * 4) by lia; now rewrite Nat.div_mul by lia).
      apply nth_error_nth'. lia.
    + replace ((i - 3) / 4) with (i / 4)
        by (replace (i - 3) with (i / 4 * 4) by lia; now rewrite Nat.div_mul by lia).
      apply nth_error_nth'. lia.
  - rewrite (proj2 (nth_error_None _ _)) by (rewrite repeat_length; exact Hge).
    cbn [option_map]. symmetry. apply nth_error_None.
    destruct (i mod 4) as [|[|[|j]]]; cbn [column]; lia.
Qed.

Lemma set_anchors_and_handles_run (self : VMobject) (a1 h1 h2 a2 : list Point) :
  length h1 = length a1 -> length h2 = length a1 -> length a2 = length a1 ->
  set_anchors_and_handles a1 h1 h2 a2 self
  = (Ok tt, with_points self (interleave a1 h1 h2 a2)).
Proof.
  intros E1 E2 E3.
  pose proof (assigned_columns a1 h1 h2 a2 E1 E2 E3) as Hcols. cbv zeta in Hcols.
  unfold set_anchors_and_handles, assert.
  rewrite E1, E2, E3, !Nat.eqb_refl. cbn [andb].
  unfold bind at 1, ret at 1. unfold bind at 1. cbn [modify].
  cbn [seq combine forM_].
  assert (Hstep : forall (s : VMobject) (j : nat) (vals : list Point) (k : M unit),
             j < 4 -> length (points s) = nppcc * length a1 ->
             length vals = length a1 ->
             bind (new_points <- bind (gets (fun self0 =>
                                              strided_assign (points self0) j nppcc vals))
                                      lift ;;
                   modify (fun self0 => with_points self0 new_points)) (fun _ => k) s
             = k (with_points s
                    (imap_from 0 (fun i x => if on_stride j nppcc i
                                             then nth ((i - j) / nppcc) vals x
                                             else x) (points s)))).
  { intros s j vals k Hj Hs Hv.
    unfold bind, gets, lift, modify, strided_assign.
    rewrite Hs, (stride_count (length a1) Hj), Hv, Nat.eqb_refl. reflexivity. }
  rewrite Hstep; [|lia| cbn [points with_points]; apply repeat_length | reflexivity].
  rewrite Hstep;
    [|lia| cbn [points with_points]; rewrite imap_from_length; apply repeat_length
     | exact E1].
  rewrite Hstep;
    [|lia| cbn [points with_points]; rewrite !imap_from_length; apply repeat_length
     | exact E2].
  rewrite Hstep;
    [|lia| cbn [points with_points]; rewrite !imap_from_length; apply repeat_length
     | exact E3].
  unfold ret. cbn [points with_points]. f_equal.
  unfold with_points. cbn [tolerance_for_point_equality style]. f_equal.
  exact Hcols.
Qed.

Lemma flat_map_singletons {A B : Type} (f : A -> list B) (g : A -> B) (l : list A) :
  (forall x, In x l -> f x = [g x]) -> flat_map f l = map g l.
Proof.
  induction l as [|x l IH]; intros H; [reflexivity|].
  cbn [flat_map map]. rewrite (H x (or_introl eq_refl)), IH; [reflexivity|].
  intros y Hy. apply H. now right.
Qed.

Lemma strided_eq (l : list Point) (start step : nat) :
  0 < step ->
  strided l start step = map (point_at l) (Np.range start (length l) step).
Proof.
  intros Hstep. unfold strided. apply flat_map_singletons.
  intros i Hi. apply range_In in Hi; [|exact Hstep].
  unfold point_at. now rewrite (nth_error_nth' l Vec.ORIGIN) by lia.
Qed.

Lemma strided_whole (l : list Point) (n j : nat) :
  j < 4 -> length l = nppcc * n ->
  strided l j nppcc = map (fun k => point_at l (j + k * nppcc)) (seq 0 n).
Proof.
  intros Hj Hlen. rewrite strided_eq by (unfold nppcc; lia).
  unfold Np.range. rewrite map_map.
  rewrite <- range_length, Hlen. now rewrite (stride_count n Hj).
Qed.

Lemma map_nth_seq (l : list Point) :
  map (fun k => nth k l Vec.ORIGIN) (seq 0 (length l)) = l.
Proof.
  apply nth_error_ext. intros k.
  rewrite nth_error_map, nth_error_seq.
  destruct (Nat.ltb_spec k (length l)) as [Hlt|Hge]; cbn [option_map].
  - symmetry. now apply nth_error_nth'.
  - symmetry. now apply nth_error_None.
Qed.

Lemma strided_interleave (a1 h1 h2 a2 : list Point) (j : nat) :
  length h1 = length a1 -> length h2 = length a1 -> length a2 = length a1 ->
  j < 4 ->
  strided (interleave a1 h1 h2 a2) j nppcc = column j a1 h1 h2 a2.
Proof.
  intros E1 E2 E3 Hj.
  rewrite (@strided_whole _ (length a1) j Hj) by now apply interleave_length.
  assert (Hcol : length (column j a1 h1 h2 a2) = length a1).
  { destruct j as [|[|[|j]]]; cbn [column]; trivial. }
  rewrite <- (map_nth_seq (column j a1 h1 h2 a2)) at 1. rewrite Hcol.
  apply map_ext_in. intros k Hk. apply in_seq in Hk.
  unfold point_at, nppcc.
  apply nth_error_nth.
  rewrite interleave_nth_error by assumption.
  rewrite Nat.Div0.mod_add, Nat.div_add, Nat.mod_small, Nat.div_small by lia.
  cbn [Nat.add]. apply nth_error_nth'. lia.
Qed.

Lemma set_anchors_and_handles_mismatch
      (self : VMobject) (anchors1 handles1 handles2 anchors2 : list Point) :
  ~ (length handles1 = length anchors1 /\ length handles2 = length anchors1 /\
     length anchors2 = length anchors1) ->
  set_anchors_and_handles anchors1 handles1 handles2 anchors2 self
  = (Raise AssertionError, self).
Proof.
  intros Hne. unfold set_anchors_and_handles, assert.
  destruct (Nat.eqb_spec (length anchors1) (length handles1)) as [E1|E1];
    destruct (Nat.eqb_spec (length handles1) (length handles2)) as [E2|E2];
    destruct (Nat.eqb_spec (length handles2) (length anchors2)) as [E3|E3];
    cbn [andb]; try reflexivity.
  exfalso. apply Hne. repeat split; congruence.
Qed.

(** X21.  Given four arrays of one length [n], [set_anchors_and_handles]
    replaces the buffer by the [n] curves whose first anchors, handles and
    last anchors they are, [4 * n] points; given arrays of different
    lengths it fails its assertion and leaves the mobject as it was. *)
Theorem set_anchors_and_handles_interleaves
        (self : VMobject) (anchors1 handles1 handles2 anchors2 : list Point) :
  (length handles1 = length anchors1 -> length handles2 = length anchors1 ->
   length anchors2 = length anchors1 ->
   set_anchors_and_handles anchors1 handles1 handles2 anchors2 self
   = (Ok tt, with_points self (interleave anchors1 handles1 handles2 anchors2)) /\
   length (interleave anchors1 handles1 handles2 anchors2) = 4 * length anchors1) /\
  (~ (length handles1 = length anchors1 /\ length handles2 = length anchors1 /\
      length anchors2 = length anchors1) ->
   set_anchors_and_handles anchors1 handles1 handles2 anchors2 self
   = (Raise AssertionError, self)).
Proof.
  split.
  - intros E1 E2 E3. split.
    + now apply set_anchors_and_handles_run.
    + now apply interleave_length.
  - apply set_anchors_and_handles_mismatch.
Qed.

(** X22.  After [set_anchors_and_handles] on four arrays of one length,
    [get_anchors_and_handles] gives the four arrays back. *)
Theorem get_after_set_anchors_and_handles
        (self : VMobject) (anchors1 handles1 handles2 anchors2 : list Point) :
  length handles1 = length anchors1 -> length handles2 = length anchors1 ->
  length anchors2 = length anchors1 ->
  exists self',
    set_anchors_and_handles anchors1 handles1 handles2 anchors2 self = (Ok tt, self') /\
    get_anchors_and_handles self' = [anchors1; handles1; handles2; anchors2].
Proof.
  intros E1 E2 E3. eexists. split; [now apply set_anchors_and_handles_run|].
  unfold get_anchors_and_handles. cbn [points with_points].
  change (Np.range 0 nppcc 1) with [0; 1; 2; 3]. cbn [map].
  now rewrite !strided_interleave by (trivial; lia).
Qed.

Lemma get_after_set_anchors_and_handles_witness :
  length [on_axis 1; on_axis 5] = length [on_axis 0; on_axis 4] /\
  length [on_axis 2; on_axis 6] = length [on_axis 0; on_axis 4] /\
  length [on_axis 3; on_axis 7] = length [on_axis 0; on_axis 4] /\
  exists self',
    set_anchors_and_handles [on_axis 0; on_axis 4] [on_axis 1; on_axis 5]
                            [on_axis 2; on_axis 6] [on_axis 3; on_axis 7] (sample [])
    = (Ok tt, self') /\
    get_anchors_and_handles self'
    = [[on_axis 0; on_axis 4]; [on_axis 1; on_axis 5];
       [on_axis 2; on_axis 6]; [on_axis 3; on_axis 7]].
Proof.
  split; [reflexivity|]. split; [reflexivity|]. split; [reflexivity|].
  apply get_after_set_anchors_and_handles; reflexivity.
Defined.

(** X23.  On a buffer of complete curves, [set_anchors_and_handles] applied
    to what [get_anchors_and_handles] returns leaves the buffer as it was;
    on a buffer with points left over, the four arrays have different
    lengths and the assertion fails. *)
Theorem set_after_get_anchors_and_handles (self : VMobject) :
  let a1 := strided (points self) 0 nppcc in
  let h1 := strided (points self) 1 nppcc in
  let h2 := strided (points self) 2 nppcc in
  let a2 := strided (points self) 3 nppcc in
  get_anchors_and_handles self = [a1; h1; h2; a2] /\
  set_anchors_and_handles a1 h1 h2 a2 self
  = if length (points self) mod 4 =? 0
    then (Ok tt, self)
    else (Raise AssertionError, self).
Proof.
  intros a1 h1 h2 a2. split; [reflexivity|].
  pose proof (Nat.div_mod_eq (length (points self)) 4) as D.
  pose proof (Nat.mod_upper_bound (length (points self)) 4 ltac:(lia)) as B.
  assert (Hcount : forall j, j < 4 ->
             length (strided (points self) j nppcc)
             = (length (points self) - j + 3) / 4).
  { intros j Hj. rewrite strided_eq by (unfold nppcc; lia).
    now rewrite length_map, range_length. }
  destruct (Nat.eqb_spec (length (points self) mod 4) 0) as [E|E].
  - assert (Hlen : length (points self) = nppcc * (length (points self) / 4))
      by (unfold nppcc; lia).
    assert (Hcol : forall j, j < 4 ->
               strided (points self) j nppcc
               = map (fun k => point_at (points self) (j + k * nppcc))
                     (seq 0 (length (points self) / 4))).
    { intros j Hj. now apply strided_whole. }
    assert (Hn : forall j, j < 4 ->
               length (strided (points self) j nppcc) = length (points self) / 4).
    { intros j Hj. now rewrite (Hcol j Hj), length_map, length_seq. }
    rewrite set_anchors_and_handles_run;
      [| unfold a1, h1; now rewrite !Hn by lia
       | unfold a1, h2; now rewrite !Hn by lia
       | unfold a1, a2; now rewrite !Hn by lia ].
    f_equal. rewrite <- (with_points_same self) at 2. rewrite app_nil_r. f_equal.
    apply nth_error_ext. intros i.
    rewrite interleave_nth_error;
      [| unfold a1, h1; now rewrite !Hn by lia
       | unfold a1, h2; now rewrite !Hn by lia
       | unfold a1, a2; now rewrite !Hn by lia ].
    pose proof (Nat.div_mod_eq i 4) as Di.
    pose proof (Nat.mod_upper_bound i 4 ltac:(lia)) as Bi.
    assert (Hpick : column (i mod 4) a1 h1 h2 a2 = strided (points self) (i mod 4) nppcc).
    { destruct (i mod 4) as [|[|[|[|j]]]]; try reflexivity; lia. }
    rewrite Hpick, (Hcol (i mod 4) Bi), nth_error_map, nth_error_seq.
    destruct (Nat.ltb_spec (i / 4) (length (points self) / 4)) as [Hlt|Hge];
      cbn [option_map].
    + unfold point_at, nppcc.
      replace (i mod 4 + (0 + i / 4) * 4) with i by lia.
      symmetry. apply nth_error_nth'. unfold nppcc in Hlen. lia.
    + symmetry. apply nth_error_None. unfold nppcc in Hlen. lia.
  - apply set_anchors_and_handles_mismatch.
    unfold a1, h1, h2, a2. rewrite !Hcount by lia.
    intros (H1 & H2 & H3).
    pose proof (Nat.div_mod_eq (length (points self) - 0 + 3) 4) as D0.
    pose proof (Nat.mod_upper_bound (length (points self) - 0 + 3) 4 ltac:(lia)) as B0.
    pose proof (Nat.div_mod_eq (length (points self) - 3 + 3) 4) as D3.
    pose proof (Nat.mod_upper_bound (length (points self) - 3 + 3) 4 ltac:(lia)) as B3.
    lia.
Qed.

Lemma combine_map_seq {A B : Type} (f : nat -> A) (g : nat -> B) (n m a : nat) :
  m <= n ->
  combine (map f (seq a n)) (map g (seq a m)) = map (fun k => (f k, g k)) (seq a m).
Proof.
  revert n a. induction m as [|m IH]; intros n a Hle.
  - cbn [seq map]. apply combine_nil.
  - destruct n as [|n]; [lia|]. cbn [seq map combine]. f_equal. apply IH. lia.
Qed.

Lemma flat_map_map {A B D : Type} (f : A -> B) (g : B -> list D) (l : list A) :
  flat_map g (map f l) = flat_map (fun x => g (f x)) l.
Proof. induction l as [|x l IH]; [reflexivity|]. cbn [map flat_map]. now rewrite IH. Qed.

(** X24.  [get_anchors] of a single point is that point; of any other
    buffer it is the first and the last point of every complete curve, in
    order, and nothing of the points left over. *)
Theorem get_anchors_of_curves (self : VMobject) :
  (length (points self) = 1 -> get_anchors self = points self) /\
  (length (points self) <> 1 ->
   get_anchors self
   = flat_map (fun k => [point_at (points self) (4 * k);
                         point_at (points self) (4 * k + 3)])
              (seq 0 (length (points self) / 4))).
Proof.
  unfold get_anchors. split; intros H.
  - now rewrite H.
  - destruct (Nat.eqb_spec (length (points self)) 1) as [E|_]; [contradiction|].
    unfold get_start_anchors, get_end_anchors.
    rewrite !strided_eq by (unfold nppcc; lia).
    unfold Np.range, nppcc. rewrite !map_map.
    assert (Hend : (length (points self) - (4 - 1) + (4 - 1)) / 4
                   = length (points self) / 4).
    { destruct (Nat.lt_ge_cases (length (points self)) 3) as [Hlt|Hge].
      - replace (length (points self) - (4 - 1) + (4 - 1)) with 3 by lia.
        rewrite Nat.div_small by lia. symmetry. apply Nat.div_small. lia.
      - f_equal. lia. }
    rewrite Hend, combine_map_seq.
    + rewrite flat_map_map. apply flat_map_ext. intros k.
      f_equal; [f_equal; lia | f_equal; f_equal; lia].
    + apply Nat.Div0.div_le_mono. lia.
Qed.

(** ** Corners *)

Lemma interleave_maps {A : Type} (f0 f1 f2 f3 : A -> Point) (l : list A) :
  interleave (map f0 l) (map f1 l) (map f2 l) (map f3 l)
  = flat_map (fun x => [f0 x; f1 x; f2 x; f3 x]) l.
Proof.
  induction l as [|x l IH]; [reflexivity|].
  cbn [map interleave flat_map app]. now rewrite IH.
Qed.

Lemma corner_pairs (pts : list Point) :
  combine (Np.zslice pts 0 (-1)) (Np.zslice pts 1 (Z.of_nat (length pts)))
  = Np.adjacent pts.
Proof.
  rewrite zslice_drop_last.
  assert (Htl : Np.zslice pts 1 (Z.of_nat (length pts)) = tl pts).
  { unfold Np.zslice, Np.clamp, Np.slice. cbn [Z.ltb Z.compare].
    destruct (Z.ltb_spec (Z.of_nat (length pts)) 0); [lia|].
    replace (Z.to_nat (Z.min 1 (Z.of_nat (length pts)))) with (Nat.min 1 (length pts))
      by lia.
    replace (Z.to_nat (Z.min (Z.of_nat (length pts)) (Z.of_nat (length pts))))
      with (length pts) by lia.
    destruct pts as [|p pts]; [reflexivity|].
    cbn [length Nat.min skipn tl].
    replace (S (length pts) - 1) with (length pts) by lia. apply firstn_all. }
  rewrite Htl. unfold Np.adjacent.
  replace (length pts - 1) with (length (tl pts)) by (destruct pts; cbn [length tl]; lia).
  symmetry. apply combine_firstn_r.
Qed.

Lemma set_points_as_corners_run (self : VMobject) (pts : list Point) :
  set_points_as_corners pts self
  = (Ok tt, with_points self
              (flat_map (fun '(p, q) => [p; Bezier.interpolate p q (Scalar.frac 1 3);
                                         Bezier.interpolate p q (Scalar.frac 2 3); q])
                        (Np.adjacent pts))).
Proof.
  unfold set_points_as_corners, Np.linspace, nppcc, interpolate_rows.
  cbn [seq map]. rewrite corner_pairs.
  rewrite set_anchors_and_handles_run by now rewrite !length_map.
  rewrite interleave_maps. f_equal. f_equal.
  apply flat_map_ext. intros [p q].
  rewrite <- (interpolate_0 p q) at 5. rewrite <- (interpolate_1 p q) at 8.
  repeat f_equal; apply Qc_is_canon; reflexivity.
Qed.

(** X25.  [set_points_as_corners] replaces the buffer by one straight curve
    per pair of consecutive corners: the two corners as anchors and the
    points at one third and two thirds between them as handles; a single
    corner leaves no point at all. *)
Theorem set_points_as_corners_polyline (self : VMobject) (pts : list Point) :
  1 <= length pts ->
  set_points_as_corners pts self
  = (Ok tt, with_points self
              (flat_map (fun '(p, q) => [p; Bezier.interpolate p q (Scalar.frac 1 3);
                                         Bezier.interpolate p q (Scalar.frac 2 3); q])
                        (Np.adjacent pts))) /\
  length (flat_map (fun '(p, q) => [p; Bezier.interpolate p q (Scalar.frac 1 3);
                                    Bezier.interpolate p q (Scalar.frac 2 3); q])
                   (Np.adjacent pts))
  = 4 * (length pts - 1).
Proof.
  intros _. split; [apply set_points_as_corners_run|].
  rewrite (@flat_map_length_const _ _ _ _ 4).
  - now rewrite adjacent_length.
  - apply Forall_forall. now intros [p q] _.
Qed.

Lemma set_points_as_corners_polyline_witness :
  1 <= length [on_axis 0; on_axis 3] /\
  set_points_as_corners [on_axis 0; on_axis 3] (sample [on_axis 9])
  = (Ok tt, with_points (sample [on_axis 9])
              (flat_map (fun '(p, q) => [p; Bezier.interpolate p q (Scalar.frac 1 3);
                                         Bezier.interpolate p q (Scalar.frac 2 3); q])
                        (Np.adjacent [on_axis 0; on_axis 3]))) /\
  length (flat_map (fun '(p, q) => [p; Bezier.interpolate p q (Scalar.frac 1 3);
                                    Bezier.interpolate p q (Scalar.frac 2 3); q])
                   (Np.adjacent [on_axis 0; on_axis 3]))
  = 4 * (length [on_axis 0; on_axis 3] - 1).
Proof.
  split; [simpl; lia|].
  apply set_points_as_corners_polyline. simpl; lia.
Defined.

Lemma polyline_joined (pts : list Point) (n : nat) :
  n mod 4 = 0 ->
  0 < n < length (flat_map (fun '(p, q) => [p; Bezier.interpolate p q (Scalar.frac 1 3);
                                            Bezier.interpolate p q (Scalar.frac 2 3); q])
                           (Np.adjacent pts)) ->
  nth (n - 1)
      (flat_map (fun '(p, q) => [p; Bezier.interpolate p q (Scalar.frac 1 3);
                                 Bezier.interpolate p q (Scalar.frac 2 3); q])
                (Np.adjacent pts)) Vec.ORIGIN
  = nth n
        (flat_map (fun '(p, q) => [p; Bezier.interpolate p q (Scalar.frac 1 3);
                                   Bezier.interpolate p q (Scalar.frac 2 3); q])
                  (Np.adjacent pts)) Vec.ORIGIN.
Proof.
  revert n. induction pts as [|p pts IH]; intros n Hmod Hn.
  - cbn in Hn. lia.
  - destruct pts as [|q rest]; [cbn in Hn; lia|].
    change (Np.adjacent (p :: q :: rest)) with ((p, q) :: Np.adjacent (q :: rest)) in *.
    cbn [flat_map app length] in *.
    destruct n as [|[|[|[|n]]]]; try (cbn in Hmod; lia).
    destruct n as [|n].
    + cbn [Nat.sub nth].
      destruct rest as [|r rest]; [cbn in Hn; lia|]. reflexivity.
    + replace (S (S (S (S (S n)))) - 1) with (S (S (S (S (S n - 1))))) by lia.
      cbn [nth]. apply IH.
      * rewrite <- (Nat.Div0.mod_add (S n) 1 4).
        now replace (S n + 1 * 4) with (S (S (S (S (S n))))) by lia.
      * lia.
Qed.

(** X26.  With a tolerance that is not negative, the curves that
    [set_points_as_corners] builds from two corners or more are one
    subpath: [get_subpaths] returns the whole buffer as its only path, of
    one curve per pair of consecutive corners. *)
Theorem set_points_as_corners_one_subpath (self : VMobject) (pts : list Point) :
  (0 <= tolerance_for_point_equality self)%Qc ->
  2 <= length pts ->
  exists self',
    set_points_as_corners pts self = (Ok tt, self') /\
    get_subpaths self' = [points self'] /\
    get_num_curves self' = length pts - 1.
Proof.
  intros Htol Hlen. rewrite set_points_as_corners_run.
  eexists. split; [reflexivity|].
  unfold get_subpaths, get_points, get_num_curves. cbn [points with_points].
  set (L := flat_map _ (Np.adjacent pts)).
  assert (HL : length L = 4 * (length pts - 1)).
  { unfold L. rewrite (@flat_map_length_const _ _ _ _ 4).
    - now rewrite adjacent_length.
    - apply Forall_forall. now intros [p q] _. }
  split.
  - rewrite subpaths_unfold.
    assert (Hnone : split_indices (with_points self L) L = []).
    { destruct (split_indices (with_points self L) L) as [|n l] eqn:E; [reflexivity|].
      exfalso.
      assert (Hin : In n (split_indices (with_points self L) L))
        by (rewrite E; left; reflexivity).
      apply split_indices_In in Hin. destruct Hin as (Hr & Hm & Hne).
      unfold point_at, L in Hne.
      rewrite polyline_joined in Hne by (trivial; fold L; lia).
      rewrite consider_points_equals_refl in Hne; [discriminate | exact Htol]. }
    rewrite Hnone. cbn [Np.adjacent tl combine map last app].
    rewrite Nat.sub_0_r.
    destruct (Nat.leb_spec nppcc (length L)) as [_|Hlt]; [|unfold nppcc in Hlt; lia].
    unfold Np.slice. now rewrite skipn_0, Nat.sub_0_r, firstn_all.
  - rewrite HL. unfold nppcc.
    rewrite Nat.mul_comm. apply Nat.div_mul. lia.
Qed.

Lemma set_points_as_corners_one_subpath_witness :
  (0 <= tolerance_for_point_equality (sample []))%Qc /\
  2 <= length [on_axis 0; on_axis 3; on_axis 6] /\
  exists self',
    set_points_as_corners [on_axis 0; on_axis 3; on_axis 6] (sample []) = (Ok tt, self') /\
    get_subpaths self' = [points self'] /\
    get_num_curves self' = length [on_axis 0; on_axis 3; on_axis 6] - 1.
Proof.
  assert (Htol : (0 <= tolerance_for_point_equality (sample []))%Qc)
    by (apply leb_iff; reflexivity).
  split; [exact Htol|]. split; [simpl; lia|].
  apply set_points_as_corners_one_subpath; [exact Htol | simpl; lia].
Defined.
